(** * Vespa filter compiler: Haystack filters to a YQL WHERE clause

    A shallow embedding of
    [haystack_integrations/document_stores/vespa/filters.py]
    and the properties of it that the specification states.

    The Python objects a filter is made of are the JSON-like values:
    [None], booleans, integers, floats, strings, lists and dictionaries
    with string keys.  A call either returns a value or raises; the
    exceptions are [FilterError], raised by the module itself, and the
    ones the interpreter raises when an object of the wrong type is
    indexed, searched or iterated.  The two limits of the interpreter
    that a call can reach, its bound on the digits of the text of an
    integer and its recursion limit, are left out of the functions;
    the properties that depend on them take them as hypotheses on the
    filter, see [ints_within] and [depth].

    The module is embedded twice.  The functions of section [Filters]
    work on filters as trees, and are what most properties are about.
    The functions of module [Heap] work on a heap in which lists and
    dictionaries are objects that can be changed; they are there for
    the question of what a call does to its argument, and are proved to
    compute what the functions on trees compute. *)

From Stdlib Require Import String Ascii List ZArith Lia Bool Arith.
From Stdlib Require Import DecimalString.
From Stdlib Require Import Floats.SpecFloat.
Import ListNotations.

Set Warnings "-register-all".

Open Scope list_scope.
Open Scope string_scope.

(** ** Python values *)

Module Py.

(** The three characters the escaping rules speak about. *)
Definition DQUOTE : ascii := ascii_of_nat 34.
Definition SQUOTE : ascii := ascii_of_nat 39.
Definition BACKSLASH : ascii := ascii_of_nat 92.

Definition chr (c : ascii) : string := String c EmptyString.

Inductive pyval : Type :=
| PNone
| PBool (b : bool)
| PInt (z : Z)
| PFloat (f : spec_float)
| PStr (s : string)
| PList (items : list pyval)
| PDict (items : list (string * pyval)).

(** [type(value)], as it is interpolated in error messages. *)
Inductive pytype : Type :=
| TNoneType | Tbool | Tint | Tfloat | Tstr | Tlist | Tdict.

Definition type_of (v : pyval) : pytype :=
  match v with
  | PNone => TNoneType
  | PBool _ => Tbool
  | PInt _ => Tint
  | PFloat _ => Tfloat
  | PStr _ => Tstr
  | PList _ => Tlist
  | PDict _ => Tdict
  end.

(** The messages of [FilterError], kept as the template of the message
    and the objects interpolated in it. *)
Inductive filter_msg : Type :=
| MsgMustBeDict
    (* "Filters must be a dictionary" *)
| MsgKeyMissing (key : string) (condition : pyval)
    (* "'<key>' key missing in {condition}" *)
| MsgNeedsCondition (operator : pyval)
    (* "'{operator}' operator requires at least one condition" *)
| MsgUnknownLogical (operator : pyval)
    (* "Unknown logical operator '{operator}'" *)
| MsgUnknownComparison (operator : pyval)
    (* "Unknown comparison operator '{operator}'" *)
| MsgValueNotSupported (value : pyval)
    (* "Filter value {value} is not supported in Vespa YQL" *)
| MsgUnsupportedType (t : pytype)
    (* "Unsupported filter value type: {type(value)}" *)
| MsgNoneNotSupported
    (* "Filtering for None/null values is not supported in Vespa" *)
| MsgInNeedsList (field : string)
    (* "{field}'s value must be a list when using 'in' or 'not in' comparators" *)
| MsgInNeedsNonEmpty (field : string)
    (* "'{field}' filter with 'in' or 'not in' requires a non-empty list" *)
| MsgUnsupportedInType (t : pytype)
    (* "Unsupported value type in 'in' list: {type(v)}" *)
| MsgRangeNone
    (* "Range operators do not support None values" *)
| MsgRangeType (t : pytype)
    (* "Filter value can't be of type {type(value)} using range operators" *).

Inductive exn : Type :=
| FilterError (msg : filter_msg)
| TypeError
| AttributeError
| KeyError.

(** The outcome of a call.  [Undefined] is not a Python outcome: it is
    what the fuel-indexed recursion answers when its fuel is spent, and
    what the reading of an address that holds no object answers. *)
Inductive outcome (A : Type) : Type :=
| Return (a : A)
| Raise (e : exn)
| Undefined.

Arguments Return {A} a.
Arguments Raise {A} e.
Arguments Undefined {A}.

Definition bind {A B : Type} (m : outcome A) (k : A -> outcome B) : outcome B :=
  match m with
  | Return a => k a
  | Raise e => Raise e
  | Undefined => Undefined
  end.

Declare Scope py_scope.
Delimit Scope py_scope with py.
Notation "x <- m ;; k" := (bind m (fun x => k))
  (at level 61, m at next level, right associativity) : py_scope.
Open Scope py_scope.

(** A list comprehension [[f(c) for c in items]]: the elements are
    taken in order and the first exception ends the evaluation. *)
Fixpoint comprehension {A B : Type} (f : A -> outcome B) (items : list A)
  : outcome (list B) :=
  match items with
  | [] => Return []
  | c :: rest =>
      y <- f c ;;
      ys <- comprehension f rest ;;
      Return (y :: ys)
  end.

(** *** Dictionaries: association lists, the first binding of a key counts. *)

Fixpoint dict_get (key : string) (d : list (string * pyval)) : option pyval :=
  match d with
  | [] => None
  | (k, v) :: rest => if String.eqb k key then Some v else dict_get key rest
  end.

Definition dict_mem (key : string) (d : list (string * pyval)) : bool :=
  match dict_get key d with Some _ => true | None => false end.

(** *** isinstance *)

Definition isinstance_dict (v : pyval) : bool :=
  match v with PDict _ => true | _ => false end.

Definition isinstance_list (v : pyval) : bool :=
  match v with PList _ => true | _ => false end.

Definition isinstance_str (v : pyval) : bool :=
  match v with PStr _ => true | _ => false end.

(** [isinstance(v, str)], with the text when it holds. *)
Definition as_str (v : pyval) : option string :=
  match v with PStr s => Some s | _ => None end.

(** [isinstance(v, bool)], with the truth value when it holds. *)
Definition as_bool (v : pyval) : option bool :=
  match v with PBool b => Some b | _ => None end.

(** The instances of [int] and [float].  [bool] is a subclass of [int],
    so a boolean is one of them. *)
Inductive number : Type :=
| NBool (b : bool)
| NInt (z : Z)
| NFloat (f : spec_float).

(** [isinstance(v, (int, float))], with the number when it holds. *)
Definition as_number (v : pyval) : option number :=
  match v with
  | PBool b => Some (NBool b)
  | PInt z => Some (NInt z)
  | PFloat f => Some (NFloat f)
  | _ => None
  end.

Definition isinstance_float (n : number) : bool :=
  match n with NFloat _ => true | _ => false end.

Definition math_isinf (n : number) : bool :=
  match n with NFloat (S754_infinity _) => true | _ => false end.

Definition math_isnan (n : number) : bool :=
  match n with NFloat S754_nan => true | _ => false end.

(** *** Truth value, membership, indexing, iteration *)

(** [bool(v)], the test of [not v] and of [x if v else y]. *)
Definition truthy (v : pyval) : bool :=
  match v with
  | PNone => false
  | PBool b => b
  | PInt z => negb (Z.eqb z 0)
  | PFloat (S754_zero _) => false
  | PFloat _ => true
  | PStr EmptyString => false
  | PStr _ => true
  | PList [] => false
  | PList _ => true
  | PDict [] => false
  | PDict _ => true
  end.

(** [v == s] for a string [s]. *)
Definition eq_str (v : pyval) (s : string) : bool :=
  match v with PStr s' => String.eqb s' s | _ => false end.

Definition is_substring (pat s : string) : bool :=
  match String.index 0 pat s with Some _ => true | None => false end.

(** [key in container] for a string [key]: a key of a dictionary, a
    substring of a string, an element of a list; the other types are
    not containers. *)
Definition contains (key : string) (container : pyval) : outcome bool :=
  match container with
  | PDict d => Return (dict_mem key d)
  | PStr s => Return (is_substring key s)
  | PList l => Return (existsb (fun x => eq_str x key) l)
  | _ => Raise TypeError
  end.

(** [container[key]] for a string [key]: only a dictionary can be
    indexed by a string. *)
Definition getitem (container : pyval) (key : string) : outcome pyval :=
  match container with
  | PDict d =>
      match dict_get key d with
      | Some v => Return v
      | None => Raise KeyError
      end
  | _ => Raise TypeError
  end.

Fixpoint chars (s : string) : list pyval :=
  match s with
  | EmptyString => []
  | String c rest => PStr (chr c) :: chars rest
  end.

(** The elements [for c in v] goes through: the elements of a list, the
    characters of a string, the keys of a dictionary. *)
Definition iterate (v : pyval) : outcome (list pyval) :=
  match v with
  | PList l => Return l
  | PStr s => Return (chars s)
  | PDict d => Return (map (fun kv => PStr (fst kv)) d)
  | _ => Raise TypeError
  end.

(** *** Strings *)

(** [s.replace(old, new)] for a pattern [old] of one character. *)
Fixpoint replace (old : ascii) (new : string) (s : string) : string :=
  match s with
  | EmptyString => EmptyString
  | String c rest =>
      if Ascii.eqb c old then new ++ replace old new rest
      else String c (replace old new rest)
  end.

(** [s[n:]]. *)
Fixpoint slice_from (n : nat) (s : string) : string :=
  match n, s with
  | O, _ => s
  | S n', String _ rest => slice_from n' rest
  | S _, EmptyString => EmptyString
  end.

(** [s.startswith(prefix)]. *)
Fixpoint startswith (s prefix : string) {struct prefix} : bool :=
  match prefix with
  | EmptyString => true
  | String p prefix' =>
      match s with
      | EmptyString => false
      | String c s' => Ascii.eqb c p && startswith s' prefix'
      end
  end.

(** [sep.join(parts)]. *)
Definition join (sep : string) (parts : list string) : string :=
  String.concat sep parts.

(** [str(z)] for an integer, the interpreter's bound on the number of
    digits of the text being left out. *)
Definition str_int (z : Z) : string := NilZero.string_of_int (Z.to_int z).

(** [str(b)] for a boolean. *)
Definition str_bool (b : bool) : string := if b then "True" else "False".

(** *** The text of a number *)

Section Rendering.

(** [repr] of a finite, non-zero float (sign, mantissa, exponent): the
    shortest decimal text that reads back as the same float.  It is the
    interpreter's, not the module's, and is left as it is. *)
Variable repr_finite : bool -> positive -> Z -> string.

(** [str(f)] for a float. *)
Definition str_float (f : spec_float) : string :=
  match f with
  | S754_zero false => "0.0"
  | S754_zero true => "-0.0"
  | S754_infinity false => "inf"
  | S754_infinity true => "-inf"
  | S754_nan => "nan"
  | S754_finite s m e => repr_finite s m e
  end.

(** [str(value)] for an instance of [int] or [float]. *)
Definition str (n : number) : string :=
  match n with
  | NBool b => str_bool b
  | NInt z => str_int z
  | NFloat f => str_float f
  end.

End Rendering.

(** The nesting depth of a value, the bound on the recursion over it. *)
Fixpoint depth (v : pyval) : nat :=
  match v with
  | PList l => S (fold_right (fun x n => Nat.max (depth x) n) 0 l)
  | PDict d => S (fold_right (fun kv n => Nat.max (depth (snd kv)) n) 0 d)
  | _ => 0
  end.

End Py.

Import Py.

(** ** The compiler over a heap

    The same functions once more, on the objects as the interpreter has
    them: a list and a dictionary are objects of a heap and are named
    by their address, through which they can be shared and changed; the
    other values cannot be changed and are carried as they are.  A
    computation takes the heap and leaves a heap, whether it returns or
    raises.  This is the model in which it can be asked what a call
    does to the objects it is given. *)

Module Heap.

Definition loc : Type := nat.

Inductive val : Type :=
| VNone
| VBool (b : bool)
| VInt (z : Z)
| VFloat (f : spec_float)
| VStr (s : string)
| VRef (l : loc).

Inductive obj : Type :=
| OList (items : list val)
| ODict (items : list (string * val)).

Definition heap : Type := list obj.

Definition M (A : Type) : Type := heap -> outcome A * heap.

Definition ret {A : Type} (a : A) : M A := fun h => (Return a, h).

Definition raise {A : Type} (e : exn) : M A := fun h => (Raise e, h).

Definition bind {A B : Type} (m : M A) (k : A -> M B) : M B :=
  fun h =>
    match m h with
    | (Return a, h') => k a h'
    | (Raise e, h') => (Raise e, h')
    | (Undefined, h') => (Undefined, h')
    end.

Declare Scope heap_scope.
Delimit Scope heap_scope with heap.
Notation "x <- m ;; k" := (bind m (fun x => k))
  (at level 61, m at next level, right associativity) : heap_scope.
Local Open Scope heap_scope.

(** *** The three accesses to the heap *)

Definition load (l : loc) : M obj :=
  fun h =>
    match nth_error h l with
    | Some o => (Return o, h)
    | None => (Undefined, h)
    end.

Fixpoint update (l : loc) (o : obj) (h : heap) : heap :=
  match h, l with
  | [], _ => []
  | _ :: rest, O => o :: rest
  | x :: rest, S l' => x :: update l' o rest
  end.

Definition store (l : loc) (o : obj) : M unit :=
  fun h =>
    match nth_error h l with
    | Some _ => (Return tt, update l o h)
    | None => (Undefined, h)
    end.

(** A new object gets the first address that is free. *)
Definition alloc (o : obj) : M loc :=
  fun h => (Return (length h), (h ++ [o])%list).

(** *** The tree a value stands for *)

Fixpoint read_all {A B : Type} (f : A -> option B) (l : list A) : option (list B) :=
  match l with
  | [] => Some []
  | a :: rest =>
      match f a, read_all f rest with
      | Some b, Some bs => Some (b :: bs)
      | _, _ => None
      end
  end.

(** The value read down to the depth [fuel]. *)
Fixpoint read (fuel : nat) (h : heap) (v : val) : option pyval :=
  match v with
  | VNone => Some PNone
  | VBool b => Some (PBool b)
  | VInt z => Some (PInt z)
  | VFloat f => Some (PFloat f)
  | VStr s => Some (PStr s)
  | VRef l =>
      match fuel with
      | O => None
      | S fuel' =>
          match nth_error h l with
          | Some (OList items) =>
              option_map PList (read_all (read fuel' h) items)
          | Some (ODict items) =>
              option_map PDict
                (read_all
                   (fun kv : string * val =>
                      option_map (pair (fst kv)) (read fuel' h (snd kv)))
                   items)
          | None => None
          end
      end
  end.

(** The interpolation of an object in a message reads it. *)
Definition snapshot (fuel : nat) (v : val) : M pyval :=
  fun h =>
    match read fuel h v with
    | Some t => (Return t, h)
    | None => (Undefined, h)
    end.

(** *** isinstance, truth value, membership, indexing, iteration *)

Definition type_of (v : val) : M pytype :=
  match v with
  | VNone => ret TNoneType
  | VBool _ => ret Tbool
  | VInt _ => ret Tint
  | VFloat _ => ret Tfloat
  | VStr _ => ret Tstr
  | VRef l =>
      o <- load l ;;
      match o with
      | OList _ => ret Tlist
      | ODict _ => ret Tdict
      end
  end.

Definition isinstance_dict (v : val) : M bool :=
  match v with
  | VRef l => o <- load l ;; ret (match o with ODict _ => true | _ => false end)
  | _ => ret false
  end.

Definition isinstance_list (v : val) : M bool :=
  match v with
  | VRef l => o <- load l ;; ret (match o with OList _ => true | _ => false end)
  | _ => ret false
  end.

Definition as_str (v : val) : option string :=
  match v with VStr s => Some s | _ => None end.

Definition as_bool (v : val) : option bool :=
  match v with VBool b => Some b | _ => None end.

Definition as_number (v : val) : option number :=
  match v with
  | VBool b => Some (NBool b)
  | VInt z => Some (NInt z)
  | VFloat f => Some (NFloat f)
  | _ => None
  end.

Definition truthy (v : val) : M bool :=
  match v with
  | VNone => ret false
  | VBool b => ret b
  | VInt z => ret (negb (Z.eqb z 0))
  | VFloat (S754_zero _) => ret false
  | VFloat _ => ret true
  | VStr EmptyString => ret false
  | VStr _ => ret true
  | VRef l =>
      o <- load l ;;
      match o with
      | OList [] | ODict [] => ret false
      | _ => ret true
      end
  end.

Definition eq_str (v : val) (s : string) : bool :=
  match v with VStr s' => String.eqb s' s | _ => false end.

Fixpoint dict_get (key : string) (d : list (string * val)) : option val :=
  match d with
  | [] => None
  | (k, v) :: rest => if String.eqb k key then Some v else dict_get key rest
  end.

Definition dict_mem (key : string) (d : list (string * val)) : bool :=
  match dict_get key d with Some _ => true | None => false end.

Definition contains (key : string) (container : val) : M bool :=
  match container with
  | VStr s => ret (is_substring key s)
  | VRef l =>
      o <- load l ;;
      match o with
      | ODict d => ret (dict_mem key d)
      | OList items => ret (existsb (fun x => eq_str x key) items)
      end
  | _ => raise TypeError
  end.

Definition getitem (container : val) (key : string) : M val :=
  match container with
  | VRef l =>
      o <- load l ;;
      match o with
      | ODict d =>
          match dict_get key d with
          | Some v => ret v
          | None => raise KeyError
          end
      | OList _ => raise TypeError
      end
  | _ => raise TypeError
  end.

Fixpoint chars (s : string) : list val :=
  match s with
  | EmptyString => []
  | String c rest => VStr (chr c) :: chars rest
  end.

(** The elements an iteration goes through, read when it starts; that
    nothing changes them while it runs is part of what is proved of the
    loops below. *)
Definition iterate (v : val) : M (list val) :=
  match v with
  | VStr s => ret (chars s)
  | VRef l =>
      o <- load l ;;
      match o with
      | OList items => ret items
      | ODict d => ret (map (fun kv => VStr (fst kv)) d)
      end
  | _ => raise TypeError
  end.

(** [for v in items: body(v)]. *)
Fixpoint for_each {A : Type} (items : list A) (body : A -> M unit) : M unit :=
  match items with
  | [] => ret tt
  | v :: rest => _ <- body v ;; for_each rest body
  end.

(** [[f(c) for c in items]]. *)
Fixpoint comprehension {A B : Type} (f : A -> M B) (items : list A) : M (list B) :=
  match items with
  | [] => ret []
  | c :: rest =>
      y <- f c ;;
      ys <- comprehension f rest ;;
      ret (y :: ys)
  end.

(** [target.append(x)]: the list at [target] is changed in place. *)
Definition list_append (target : loc) (x : val) : M unit :=
  o <- load target ;;
  match o with
  | OList items => store target (OList (items ++ [x])%list)
  | ODict _ => raise AttributeError
  end.

Fixpoint strings (items : list val) : option (list string) :=
  match items with
  | [] => Some []
  | VStr s :: rest => option_map (cons s) (strings rest)
  | _ :: _ => None
  end.

(** [sep.join(parts)] for the list at [parts]. *)
Definition join (sep : string) (parts : loc) : M string :=
  o <- load parts ;;
  match o with
  | OList items =>
      match strings items with
      | Some texts => ret (Py.join sep texts)
      | None => raise TypeError
      end
  | ODict _ => raise TypeError
  end.

(** *** The module *)

Section Filters.

Variable repr_finite : bool -> positive -> Z -> string.

(** The fuel of the interpolations in the messages. *)
Variable fuel : nat.

Definition _escape_yql_string (value : string) : string :=
  replace DQUOTE (chr BACKSLASH ++ chr DQUOTE)
    (replace BACKSLASH (chr BACKSLASH ++ chr BACKSLASH) value).

Definition _format_value (value : val) : M string :=
  match as_str value with
  | Some s => ret (chr DQUOTE ++ _escape_yql_string s ++ chr DQUOTE)
  | None =>
  match as_bool value with
  | Some b => ret (if b then "true" else "false")
  | None =>
  match as_number value with
  | Some n =>
      if isinstance_float n && (math_isinf n || math_isnan n)
      then shown <- snapshot fuel value ;;
           raise (FilterError (MsgValueNotSupported shown))
      else ret (str repr_finite n)
  | None =>
      t <- type_of value ;;
      raise (FilterError (MsgUnsupportedType t))
  end end end.

Definition _equal (field : string) (value : val) : M string :=
  match value with
  | VNone => raise (FilterError MsgNoneNotSupported)
  | _ =>
  match as_str value with
  | Some s =>
      ret (field ++ " contains " ++ chr DQUOTE ++ _escape_yql_string s ++ chr DQUOTE)
  | None =>
      v <- _format_value value ;;
      ret (field ++ " = " ++ v)
  end end.

Definition _not_equal (field : string) (value : val) : M string :=
  match value with
  | VNone => raise (FilterError MsgNoneNotSupported)
  | _ =>
  match as_str value with
  | Some s =>
      ret ("!(" ++ field ++ " contains " ++ chr DQUOTE
                ++ _escape_yql_string s ++ chr DQUOTE ++ ")")
  | None =>
      v <- _format_value value ;;
      ret ("!(" ++ field ++ " = " ++ v ++ ")")
  end end.

Definition _validate_range_value (value : val) : M unit :=
  match value with
  | VNone => raise (FilterError MsgRangeNone)
  | _ =>
      is_list <- isinstance_list value ;;
      if is_list
      then t <- type_of value ;; raise (FilterError (MsgRangeType t))
      else ret tt
  end.

Definition _greater_than (field : string) (value : val) : M string :=
  _ <- _validate_range_value value ;;
  v <- _format_value value ;;
  ret (field ++ " > " ++ v).

Definition _greater_than_equal (field : string) (value : val) : M string :=
  _ <- _validate_range_value value ;;
  v <- _format_value value ;;
  ret (field ++ " >= " ++ v).

Definition _less_than (field : string) (value : val) : M string :=
  _ <- _validate_range_value value ;;
  v <- _format_value value ;;
  ret (field ++ " < " ++ v).

Definition _less_than_equal (field : string) (value : val) : M string :=
  _ <- _validate_range_value value ;;
  v <- _format_value value ;;
  ret (field ++ " <= " ++ v).

(** The body of the loop of [_in]: one element is rendered and
    appended to the list [formatted_values]. *)
Definition _in_body (formatted_values : loc) (v : val) : M unit :=
  match as_str v with
  | Some s =>
      let escaped :=
        replace SQUOTE (chr BACKSLASH ++ chr SQUOTE)
          (replace BACKSLASH (chr BACKSLASH ++ chr BACKSLASH) s) in
      list_append formatted_values (VStr (chr SQUOTE ++ escaped ++ chr SQUOTE))
  | None =>
  match as_bool v with
  | Some b => list_append formatted_values (VStr (if b then "true" else "false"))
  | None =>
  match as_number v with
  | Some n => list_append formatted_values (VStr (str repr_finite n))
  | None =>
      t <- type_of v ;;
      raise (FilterError (MsgUnsupportedInType t))
  end end end.

Definition _in (field : string) (value : val) : M string :=
  is_list <- isinstance_list value ;;
  if negb is_list
  then raise (FilterError (MsgInNeedsList field))
  else
  non_empty <- truthy value ;;
  if negb non_empty
  then raise (FilterError (MsgInNeedsNonEmpty field))
  else
  formatted_values <- alloc (OList []) ;;
  items <- iterate value ;;
  _ <- for_each items (_in_body formatted_values) ;;
  joined <- join ", " formatted_values ;;
  ret (field ++ " in (" ++ joined ++ ")").

Definition _not_in (field : string) (value : val) : M string :=
  is_list <- isinstance_list value ;;
  if negb is_list
  then raise (FilterError (MsgInNeedsList field))
  else
    inner <- _in field value ;;
    ret ("!(" ++ inner ++ ")").

Definition COMPARISON_OPERATORS : list (string * (string -> val -> M string)) :=
  [ ("==", _equal);
    ("!=", _not_equal);
    (">", _greater_than);
    (">=", _greater_than_equal);
    ("<", _less_than);
    ("<=", _less_than_equal);
    ("in", _in);
    ("not in", _not_in) ].

Fixpoint table_get {A : Type} (key : string) (table : list (string * A)) : option A :=
  match table with
  | [] => None
  | (k, f) :: rest => if String.eqb k key then Some f else table_get key rest
  end.

Definition _parse_logical_condition
    (recurse : val -> M string) (condition : val) : M string :=
  has_operator <- contains "operator" condition ;;
  if negb has_operator
  then shown <- snapshot fuel condition ;;
       raise (FilterError (MsgKeyMissing "operator" shown))
  else
  has_conditions <- contains "conditions" condition ;;
  if negb has_conditions
  then shown <- snapshot fuel condition ;;
       raise (FilterError (MsgKeyMissing "conditions" shown))
  else
  operator <- getitem condition "operator" ;;
  children <- getitem condition "conditions" ;;
  non_empty <- truthy children ;;
  if negb non_empty
  then shown <- snapshot fuel operator ;;
       raise (FilterError (MsgNeedsCondition shown))
  else
  items <- iterate children ;;
  conditions <- comprehension recurse items ;;
  if eq_str operator "AND"
  then ret ("(" ++ Py.join " and " conditions ++ ")")
  else if eq_str operator "OR"
  then ret ("(" ++ Py.join " or " conditions ++ ")")
  else if eq_str operator "NOT"
  then ret ("!(" ++ Py.join " and " conditions ++ ")")
  else shown <- snapshot fuel operator ;;
       raise (FilterError (MsgUnknownLogical shown)).

Definition dispatch (operator : val) (field : string) (value : val) : M string :=
  match operator with
  | VRef _ => raise TypeError
  | VStr op =>
      match table_get op COMPARISON_OPERATORS with
      | Some formatter => formatter field value
      | None =>
          raise (FilterError (MsgUnknownComparison (PStr op)))
      end
  | _ =>
      shown <- snapshot fuel operator ;;
      raise (FilterError (MsgUnknownComparison shown))
  end.

Definition _parse_comparison_body
    (recurse : val -> M string) (condition : val) : M string :=
  has_field <- contains "field" condition ;;
  if negb has_field
  then _parse_logical_condition recurse condition
  else
  field <- getitem condition "field" ;;
  match as_str field with
  | None => raise AttributeError
  | Some field =>
      let field := if startswith field "meta." then slice_from 5 field else field in
      has_operator <- contains "operator" condition ;;
      if negb has_operator
      then shown <- snapshot fuel condition ;;
           raise (FilterError (MsgKeyMissing "operator" shown))
      else
      has_value <- contains "value" condition ;;
      if negb has_value
      then shown <- snapshot fuel condition ;;
           raise (FilterError (MsgKeyMissing "value" shown))
      else
      operator <- getitem condition "operator" ;;
      value <- getitem condition "value" ;;
      dispatch operator field value
  end.

Fixpoint _parse_comparison_condition (depth : nat) (condition : val) : M string :=
  match depth with
  | O => fun h => (Undefined, h)
  | S depth' =>
      _parse_comparison_body (_parse_comparison_condition depth') condition
  end.

Definition normalize_filters (filters : val) : M string :=
  is_dict <- isinstance_dict filters ;;
  if negb is_dict
  then raise (FilterError MsgMustBeDict)
  else
    has_field <- contains "field" filters ;;
    if has_field
    then _parse_comparison_condition fuel filters
    else _parse_logical_condition (_parse_comparison_condition fuel) filters.

End Filters.

End Heap.

(** ** The compiler *)

(** The properties below hold whatever the text of the finite floats
    is.  Where one of them is applied to a given filter, the text taken
    is this one; none of these filters holds a finite float. *)
Definition repr_constant (s : bool) (m : positive) (e : Z) : string := "1.5".

Section Filters.

(** [repr] of a finite, non-zero float, see [Py.str_float]. *)
Variable repr_finite : bool -> positive -> Z -> string.

Local Abbreviation str := (Py.str repr_finite).

Definition _escape_yql_string (value : string) : string :=
  replace DQUOTE (chr BACKSLASH ++ chr DQUOTE)
    (replace BACKSLASH (chr BACKSLASH ++ chr BACKSLASH) value).

Definition _format_value (value : pyval) : outcome string :=
  match as_str value with
  | Some s => Return (chr DQUOTE ++ _escape_yql_string s ++ chr DQUOTE)
  | None =>
  match as_bool value with
  | Some b => Return (if b then "true" else "false")
  | None =>
  match as_number value with
  | Some n =>
      if isinstance_float n && (math_isinf n || math_isnan n)
      then Raise (FilterError (MsgValueNotSupported value))
      else Return (str n)
  | None => Raise (FilterError (MsgUnsupportedType (type_of value)))
  end end end.

Definition _equal (field : string) (value : pyval) : outcome string :=
  match value with
  | PNone => Raise (FilterError MsgNoneNotSupported)
  | _ =>
  match as_str value with
  | Some s =>
      Return (field ++ " contains " ++ chr DQUOTE ++ _escape_yql_string s ++ chr DQUOTE)
  | None =>
      v <- _format_value value ;;
      Return (field ++ " = " ++ v)
  end end.

Definition _not_equal (field : string) (value : pyval) : outcome string :=
  match value with
  | PNone => Raise (FilterError MsgNoneNotSupported)
  | _ =>
  match as_str value with
  | Some s =>
      Return ("!(" ++ field ++ " contains " ++ chr DQUOTE
                   ++ _escape_yql_string s ++ chr DQUOTE ++ ")")
  | None =>
      v <- _format_value value ;;
      Return ("!(" ++ field ++ " = " ++ v ++ ")")
  end end.

Definition _validate_range_value (value : pyval) : outcome unit :=
  match value with
  | PNone => Raise (FilterError MsgRangeNone)
  | _ =>
      if isinstance_list value
      then Raise (FilterError (MsgRangeType (type_of value)))
      else Return tt
  end.

Definition _greater_than (field : string) (value : pyval) : outcome string :=
  _ <- _validate_range_value value ;;
  v <- _format_value value ;;
  Return (field ++ " > " ++ v).

Definition _greater_than_equal (field : string) (value : pyval) : outcome string :=
  _ <- _validate_range_value value ;;
  v <- _format_value value ;;
  Return (field ++ " >= " ++ v).

Definition _less_than (field : string) (value : pyval) : outcome string :=
  _ <- _validate_range_value value ;;
  v <- _format_value value ;;
  Return (field ++ " < " ++ v).

Definition _less_than_equal (field : string) (value : pyval) : outcome string :=
  _ <- _validate_range_value value ;;
  v <- _format_value value ;;
  Return (field ++ " <= " ++ v).

(** The body of the loop of [_in]: what one element of the list appends
    to [formatted_values]. *)
Definition _in_element (v : pyval) : outcome string :=
  match as_str v with
  | Some s =>
      let escaped :=
        replace SQUOTE (chr BACKSLASH ++ chr SQUOTE)
          (replace BACKSLASH (chr BACKSLASH ++ chr BACKSLASH) s) in
      Return (chr SQUOTE ++ escaped ++ chr SQUOTE)
  | None =>
  match as_bool v with
  | Some b => Return (if b then "true" else "false")
  | None =>
  match as_number v with
  | Some n => Return (str n)
  | None => Raise (FilterError (MsgUnsupportedInType (type_of v)))
  end end end.

Definition _in (field : string) (value : pyval) : outcome string :=
  match value with
  | PList items =>
      if negb (truthy value)
      then Raise (FilterError (MsgInNeedsNonEmpty field))
      else
        formatted_values <- comprehension _in_element items ;;
        Return (field ++ " in (" ++ join ", " formatted_values ++ ")")
  | _ => Raise (FilterError (MsgInNeedsList field))
  end.

Definition _not_in (field : string) (value : pyval) : outcome string :=
  if negb (isinstance_list value)
  then Raise (FilterError (MsgInNeedsList field))
  else
    inner <- _in field value ;;
    Return ("!(" ++ inner ++ ")").

Definition COMPARISON_OPERATORS
  : list (string * (string -> pyval -> outcome string)) :=
  [ ("==", _equal);
    ("!=", _not_equal);
    (">", _greater_than);
    (">=", _greater_than_equal);
    ("<", _less_than);
    ("<=", _less_than_equal);
    ("in", _in);
    ("not in", _not_in) ].

Fixpoint table_get {A : Type} (key : string) (table : list (string * A)) : option A :=
  match table with
  | [] => None
  | (k, f) :: rest => if String.eqb k key then Some f else table_get key rest
  end.

(** [_parse_logical_condition], its call of [_parse_comparison_condition]
    on the children being [recurse]. *)
Definition _parse_logical_condition
    (recurse : pyval -> outcome string) (condition : pyval) : outcome string :=
  has_operator <- contains "operator" condition ;;
  if negb has_operator
  then Raise (FilterError (MsgKeyMissing "operator" condition))
  else
  has_conditions <- contains "conditions" condition ;;
  if negb has_conditions
  then Raise (FilterError (MsgKeyMissing "conditions" condition))
  else
  operator <- getitem condition "operator" ;;
  children <- getitem condition "conditions" ;;
  if negb (truthy children)
  then Raise (FilterError (MsgNeedsCondition operator))
  else
  items <- iterate children ;;
  conditions <- comprehension recurse items ;;
  if eq_str operator "AND"
  then Return ("(" ++ join " and " conditions ++ ")")
  else if eq_str operator "OR"
  then Return ("(" ++ join " or " conditions ++ ")")
  else if eq_str operator "NOT"
  then Return ("!(" ++ join " and " conditions ++ ")")
  else Raise (FilterError (MsgUnknownLogical operator)).

(** [operator not in COMPARISON_OPERATORS] followed by the call of
    [COMPARISON_OPERATORS[operator]]: the key is hashed first, which a
    list or a dictionary refuses. *)
Definition dispatch (operator : pyval) (field : string) (value : pyval)
  : outcome string :=
  match operator with
  | PList _ | PDict _ => Raise TypeError
  | PStr op =>
      match table_get op COMPARISON_OPERATORS with
      | Some formatter => formatter field value
      | None => Raise (FilterError (MsgUnknownComparison operator))
      end
  | _ => Raise (FilterError (MsgUnknownComparison operator))
  end.

(** The body of [_parse_comparison_condition], its call of
    [_parse_logical_condition] recursing through [recurse]. *)
Definition _parse_comparison_body
    (recurse : pyval -> outcome string) (condition : pyval) : outcome string :=
  has_field <- contains "field" condition ;;
  if negb has_field
  then _parse_logical_condition recurse condition
  else
  field <- getitem condition "field" ;;
  match as_str field with
  | None => Raise AttributeError
  | Some field =>
      let field := if startswith field "meta." then slice_from 5 field else field in
      has_operator <- contains "operator" condition ;;
      if negb has_operator
      then Raise (FilterError (MsgKeyMissing "operator" condition))
      else
      has_value <- contains "value" condition ;;
      if negb has_value
      then Raise (FilterError (MsgKeyMissing "value" condition))
      else
      operator <- getitem condition "operator" ;;
      value <- getitem condition "value" ;;
      dispatch operator field value
  end.

Fixpoint _parse_comparison_condition (fuel : nat) (condition : pyval)
  : outcome string :=
  match fuel with
  | O => Undefined
  | S fuel' =>
      _parse_comparison_body (_parse_comparison_condition fuel') condition
  end.

(** The compilation of a node with the fuel its depth asks for: the
    recursion of the source, the interpreter's bound on its depth being
    left out. *)
Definition compile (condition : pyval) : outcome string :=
  _parse_comparison_condition (S (depth condition)) condition.

Definition normalize_filters (filters : pyval) : outcome string :=
  if negb (isinstance_dict filters)
  then Raise (FilterError MsgMustBeDict)
  else
    has_field <- contains "field" filters ;;
    if has_field
    then compile filters
    else _parse_logical_condition compile filters.

(** ** What the specification speaks of *)

(** The field name a comparison emits: [field] after the lines
    [if field.startswith("meta."): field = field[5:]]. *)
Definition emitted_field (field : string) : string :=
  if startswith field "meta." then slice_from 5 field else field.

(** The literal of a boolean in the target dialect. *)
Definition yql_bool (b : bool) : string := if b then "true" else "false".

(** Escaping as the specification words it: every character is looked
    at once, the backslash and the quote of the context get a backslash
    in front, every other character is kept. *)
Definition escape_char (quote c : ascii) : string :=
  if Ascii.eqb c BACKSLASH then chr BACKSLASH ++ chr BACKSLASH
  else if Ascii.eqb c quote then chr BACKSLASH ++ chr quote
  else chr c.

Fixpoint escape_each (quote : ascii) (s : string) : string :=
  match s with
  | EmptyString => EmptyString
  | String c rest => escape_char quote c ++ escape_each quote rest
  end.

(** The reading of an escaped text: a backslash announces the character
    that follows it, which is taken as it is ([pending] tells that the
    backslash has just been read). *)
Fixpoint unescape_from (pending : bool) (s : string) : string :=
  match s with
  | EmptyString => EmptyString
  | String c rest =>
      if pending then String c (unescape_from false rest)
      else if Ascii.eqb c BACKSLASH then unescape_from true rest
      else String c (unescape_from false rest)
  end.

Definition unescape (s : string) : string := unescape_from false s.

(** The filters the type annotations of the module describe: every node
    is a dictionary, what it holds under [field] and [operator] is a
    string, what it holds under [conditions] is a list of such nodes. *)
Fixpoint well_typed (node : pyval) : bool :=
  match node with
  | PDict d =>
      forallb
        (fun kv : string * pyval =>
           let (k, v) := kv in
           if String.eqb k "field" then isinstance_str v
           else if String.eqb k "operator" then isinstance_str v
           else if String.eqb k "conditions" then
             match v with
             | PList children => forallb well_typed children
             | _ => false
             end
           else true)
        d
  | _ => false
  end.

(** Whether the text [s], read as the inside of a literal closed by
    [quote], ends the literal before its end: it holds a quote that no
    backslash announces, or it ends on a backslash that would take the
    closing quote ([pending] tells that a backslash has just been
    read). *)
Fixpoint closes_early (quote : ascii) (pending : bool) (s : string) : bool :=
  match s with
  | EmptyString => pending
  | String c rest =>
      if pending then closes_early quote false rest
      else if Ascii.eqb c BACKSLASH then closes_early quote true rest
      else if Ascii.eqb c quote then true
      else closes_early quote false rest
  end.

(** The values a scalar position renders: strings, booleans, integers
    and the floats that are neither infinite nor not-a-number. *)
Definition renders (v : pyval) : bool :=
  match v with
  | PStr _ | PBool _ | PInt _ => true
  | PFloat f => negb (math_isinf (NFloat f) || math_isnan (NFloat f))
  | _ => false
  end.

(** The values an [in] list renders: strings, booleans and numbers. *)
Definition listable (v : pyval) : bool :=
  match v with
  | PStr _ | PBool _ | PInt _ | PFloat _ => true
  | _ => false
  end.

Definition scalar_operators : list string := ["=="; "!="; ">"; ">="; "<"; "<="].

Definition list_operators : list string := ["in"; "not in"].

Definition logical_operators : list string := ["AND"; "OR"; "NOT"].

Definition mem (s : string) (l : list string) : bool :=
  existsb (fun x => String.eqb x s) l.

(** The values the formatter of [op] turns into a fragment. *)
Definition value_accepted (op : string) (value : pyval) : bool :=
  if mem op scalar_operators then renders value
  else if mem op list_operators then
    match value with
    | PList (x :: rest) => forallb listable (x :: rest)
    | _ => false
    end
  else false.

(** The filters that compile, told without compiling them: a comparison
    node holds a string under [field], one of the eight operators under
    [operator] and a value its formatter accepts; a logical node holds
    [AND], [OR] or [NOT] under [operator] and a list that is not empty,
    of filters that compile, under [conditions].  [fuel] bounds the
    depth looked at. *)
Fixpoint accepted (fuel : nat) (node : pyval) : bool :=
  match fuel with
  | O => false
  | S fuel' =>
      match node with
      | PDict d =>
          match dict_get "field" d with
          | Some field =>
              isinstance_str field &&
              match dict_get "operator" d, dict_get "value" d with
              | Some (PStr op), Some value => value_accepted op value
              | _, _ => false
              end
          | None =>
              match dict_get "operator" d, dict_get "conditions" d with
              | Some (PStr op), Some (PList (c :: rest)) =>
                  mem op logical_operators && forallb (accepted fuel') (c :: rest)
              | _, _ => false
              end
          end
      | _ => false
      end
  end.

Definition accepts (filters : pyval) : bool := accepted (S (depth filters)) filters.

(** *** The limits of the interpreter

    Two limits of the interpreter can be reached by a call, and the
    functions above leave both out.  The text of an integer, which
    [str] gives and which the interpolation of an object in a message
    asks for, is given for the integers of at most
    [sys.get_int_max_str_digits()] digits, 4300 unless it is set
    otherwise and [0] for no bound; for the others the interpreter
    raises [ValueError].  The calls that are nested are counted, and
    where [sys.getrecursionlimit()] is reached the interpreter raises
    [RecursionError].  The properties that say of a class of filters
    that the call returns, or that it raises nothing but a
    [FilterError], are stated of the filters that stay within both. *)

(** The number of digits of the text of an integer, the sign left
    out. *)
Definition digits (z : Z) : nat := String.length (str_int (Z.abs z)).

(** The integers whose text the interpreter gives when the bound on
    the digits is [cap]. *)
Definition int_within (cap : nat) (z : Z) : bool :=
  Nat.eqb cap 0 || Nat.leb (digits z) cap.

(** Every integer of [v], at any depth, is one whose text the
    interpreter gives. *)
Fixpoint ints_within (cap : nat) (v : pyval) : bool :=
  match v with
  | PInt z => int_within cap z
  | PList l => forallb (ints_within cap) l
  | PDict d => forallb (fun kv : string * pyval => ints_within cap (snd kv)) d
  | _ => true
  end.

(** The floats that [math.isinf] or [math.isnan] tells. *)
Definition non_finite (v : pyval) : bool :=
  match v with
  | PFloat f => math_isinf (NFloat f) || math_isnan (NFloat f)
  | _ => false
  end.

(** No list of [v], at any depth, holds an infinite or not-a-number
    float. *)
Fixpoint lists_finite (v : pyval) : bool :=
  match v with
  | PList l => forallb (fun x => negb (non_finite x) && lists_finite x) l
  | PDict d => forallb (fun kv : string * pyval => lists_finite (snd kv)) d
  | _ => true
  end.

(** The texts of the elements of an [in] list that come before the
    first element that is refused; of all of them when none is. *)
Fixpoint rendered_before_refusal (items : list pyval) : list string :=
  match items with
  | [] => []
  | x :: rest =>
      match _in_element x with
      | Return y => y :: rendered_before_refusal rest
      | _ => []
      end
  end.


(** The tree a value of the heap stands for: [denotes h v t] when
    reading [v] in [h], through the addresses, gives [t]. *)
Inductive denotes (h : Heap.heap) : Heap.val -> pyval -> Prop :=
| denotes_none : denotes h Heap.VNone PNone
| denotes_bool b : denotes h (Heap.VBool b) (PBool b)
| denotes_int z : denotes h (Heap.VInt z) (PInt z)
| denotes_float f : denotes h (Heap.VFloat f) (PFloat f)
| denotes_str s : denotes h (Heap.VStr s) (PStr s)
| denotes_list l items trees :
    nth_error h l = Some (Heap.OList items) ->
    Forall2 (denotes h) items trees ->
    denotes h (Heap.VRef l) (PList trees)
| denotes_dict l items trees :
    nth_error h l = Some (Heap.ODict items) ->
    Forall2 (fun kv kt => fst kv = fst kt /\ denotes h (snd kv) (snd kt))
      items trees ->
    denotes h (Heap.VRef l) (PDict trees).

(** Every object of [h] is still in [h'], at its address and as it
    was. *)
Definition unchanged (h h' : Heap.heap) : Prop :=
  forall l o, nth_error h l = Some o -> nth_error h' l = Some o.

(** The computation [m] run in [h] has the outcome [o], and leaves the
    objects of [h] as they were. *)
Definition runs_to {A : Type} (h : Heap.heap) (m : Heap.M A) (o : outcome A) : Prop :=
  exists h', m h = (o, h') /\ unchanged h h'.

(** An outcome that is a value, or an exception among [allowed]; in
    particular the recursion did not run out of fuel. *)
Definition raises_only {A : Type} (allowed : exn -> Prop) (o : outcome A) : Prop :=
  match o with
  | Return _ => True
  | Raise e => allowed e
  | Undefined => False
  end.

Definition is_filter_error (e : exn) : Prop :=
  match e with FilterError _ => True | _ => False end.

Definition any_exception (e : exn) : Prop := True.

(** ** The Python model: list comprehensions and depth *)

Lemma comprehension_ext_in {A B : Type} (f g : A -> outcome B) (l : list A) :
  (forall x, In x l -> f x = g x) -> comprehension f l = comprehension g l.
Proof.
  induction l as [|a l IH]; intros H; simpl; [reflexivity|].
  rewrite (H a (or_introl eq_refl)).
  rewrite IH; [reflexivity|].
  intros x Hx. apply H. right. exact Hx.
Qed.

Lemma comprehension_length {A B : Type} (f : A -> outcome B) (l : list A) :
  forall ys, comprehension f l = Return ys -> length ys = length l.
Proof.
  induction l as [|a l IH]; simpl; intros ys H.
  - injection H as <-. reflexivity.
  - destruct (f a) as [y| |]; simpl in H; try discriminate.
    destruct (comprehension f l) as [ys'| |]; simpl in H; try discriminate.
    injection H as <-. simpl. f_equal. apply IH. reflexivity.
Qed.

(** The comprehension stops at the first element that raises. *)
Lemma comprehension_raise {A B : Type} (f : A -> outcome B)
    (before : list A) (c : A) (after : list A) (done : list B) (e : exn) :
  comprehension f before = Return done ->
  f c = Raise e ->
  comprehension f (before ++ c :: after)%list = Raise e.
Proof.
  revert done. induction before as [|a l IH]; simpl; intros done Hd Hc.
  - rewrite Hc. reflexivity.
  - destruct (f a) as [y| |]; simpl in *; try discriminate.
    destruct (comprehension f l) as [ys| |] eqn:E; simpl in Hd; try discriminate.
    rewrite (IH ys eq_refl Hc). reflexivity.
Qed.

Lemma raises_only_bind {A B : Type} (allowed : exn -> Prop)
    (m : outcome A) (k : A -> outcome B) :
  raises_only allowed m ->
  (forall a, m = Return a -> raises_only allowed (k a)) ->
  raises_only allowed (x <- m ;; k x).
Proof.
  intros Hm Hk. destruct m as [a|e|]; simpl in *; auto.
Qed.

Lemma raises_only_weaken {A : Type} (allowed allowed' : exn -> Prop)
    (o : outcome A) :
  (forall e, allowed e -> allowed' e) ->
  raises_only allowed o -> raises_only allowed' o.
Proof. intros H. destruct o; simpl; auto. Qed.

Lemma raises_only_comprehension {A B : Type} (allowed : exn -> Prop)
    (f : A -> outcome B) (l : list A) :
  (forall x, In x l -> raises_only allowed (f x)) ->
  raises_only allowed (comprehension f l).
Proof.
  induction l as [|a l IH]; intros H; simpl; [exact I|].
  apply raises_only_bind; [apply H; left; reflexivity|].
  intros y _. apply raises_only_bind; [|intros; exact I].
  apply IH. intros x Hx. apply H. right. exact Hx.
Qed.



Lemma comprehension_nth {A B : Type} (f : A -> outcome B) (l : list A) :
  forall ys i x,
    comprehension f l = Return ys ->
    nth_error l i = Some x ->
    exists y, nth_error ys i = Some y /\ f x = Return y.
Proof.
  induction l as [|a l IH]; simpl; intros ys i x E Hx.
  - destruct i; discriminate.
  - destruct (f a) as [y| |] eqn:Ea; simpl in E; try discriminate.
    destruct (comprehension f l) as [ys'| |]; simpl in E; try discriminate.
    injection E as <-. destruct i as [|i]; simpl in *.
    + injection Hx as <-. exists y. split; [reflexivity|exact Ea].
    + apply (IH ys' i x eq_refl Hx).
Qed.

Lemma comprehension_defined {A B : Type} (f : A -> outcome B) (l : list A) :
  (forall x, f x <> Undefined) -> comprehension f l <> Undefined.
Proof.
  intros H. induction l as [|a l IH]; simpl; [discriminate|].
  specialize (H a). destruct (f a); simpl; try congruence.
  destruct (comprehension f l); simpl; congruence.
Qed.

Lemma depth_element (x : pyval) (l : list pyval) :
  In x l -> depth x < depth (PList l).
Proof.
  simpl. induction l as [|a l IH]; simpl; intros H; [contradiction|].
  destruct H as [->|H]; [lia|]. specialize (IH H). lia.
Qed.

Lemma depth_dict_get (key : string) (d : list (string * pyval)) (v : pyval) :
  dict_get key d = Some v -> depth v < depth (PDict d).
Proof.
  simpl. induction d as [|[k w] d IH]; simpl; intros H; [discriminate|].
  destruct (String.eqb k key).
  - injection H as ->. lia.
  - specialize (IH H). lia.
Qed.

Lemma depth_chars (x : pyval) (s : string) : In x (chars s) -> depth x = 0.
Proof.
  induction s as [|c s IH]; simpl; intros H; [contradiction|].
  destruct H as [<-|H]; [reflexivity|auto].
Qed.

Lemma depth_iterate (v : pyval) (items : list pyval) (x : pyval) :
  iterate v = Return items -> In x items -> depth x <= depth v.
Proof.
  destruct v; simpl; intros H Hx; try discriminate; injection H as <-.
  - rewrite (depth_chars _ _ Hx). lia.
  - pose proof (depth_element _ _ Hx) as Hl. simpl in Hl. lia.
  - apply in_map_iff in Hx. destruct Hx as [kv [<- _]]. simpl. lia.
Qed.

(** ** The formatters raise nothing but [FilterError] *)

Lemma _format_value_raises (value : pyval) :
  raises_only is_filter_error (_format_value value).
Proof.
  destruct value as [ |b|z|f|s|l|d]; simpl; try exact I.
  destruct f; simpl; exact I.
Qed.

Lemma _validate_range_value_raises (value : pyval) :
  raises_only is_filter_error (_validate_range_value value).
Proof. destruct value; simpl; exact I. Qed.

Lemma _in_element_raises (v : pyval) :
  raises_only is_filter_error (_in_element v).
Proof. destruct v; simpl; exact I. Qed.

Lemma _in_raises (field : string) (value : pyval) :
  raises_only is_filter_error (_in field value).
Proof.
  destruct value as [ |b|z|f|s|l|d]; try exact I.
  unfold _in. destruct (negb (truthy (PList l))); [exact I|].
  apply raises_only_bind; [|intros; exact I].
  apply raises_only_comprehension. intros x _. apply _in_element_raises.
Qed.

Lemma formatter_raises (op : string) (formatter : string -> pyval -> outcome string)
    (field : string) (value : pyval) :
  table_get op COMPARISON_OPERATORS = Some formatter ->
  raises_only is_filter_error (formatter field value).
Proof.
  unfold COMPARISON_OPERATORS. simpl. intros H.
  repeat match type of H with
  | (if ?b then _ else _) = _ => destruct b
  end; try discriminate; injection H as <-.
  - unfold _equal. destruct value; simpl; try exact I;
      (apply raises_only_bind; [apply _format_value_raises|intros; exact I]).
  - unfold _not_equal. destruct value; simpl; try exact I;
      (apply raises_only_bind; [apply _format_value_raises|intros; exact I]).
  - unfold _greater_than.
    apply raises_only_bind; [apply _validate_range_value_raises|intros _ _].
    apply raises_only_bind; [apply _format_value_raises|intros; exact I].
  - unfold _greater_than_equal.
    apply raises_only_bind; [apply _validate_range_value_raises|intros _ _].
    apply raises_only_bind; [apply _format_value_raises|intros; exact I].
  - unfold _less_than.
    apply raises_only_bind; [apply _validate_range_value_raises|intros _ _].
    apply raises_only_bind; [apply _format_value_raises|intros; exact I].
  - unfold _less_than_equal.
    apply raises_only_bind; [apply _validate_range_value_raises|intros _ _].
    apply raises_only_bind; [apply _format_value_raises|intros; exact I].
  - apply _in_raises.
  - unfold _not_in. destruct (negb (isinstance_list value)); [exact I|].
    apply raises_only_bind; [apply _in_raises|intros; exact I].
Qed.

Lemma dispatch_string_raises (op field : string) (value : pyval) :
  raises_only is_filter_error (dispatch (PStr op) field value).
Proof.
  unfold dispatch.
  destruct (table_get op COMPARISON_OPERATORS) as [formatter|] eqn:E; [|exact I].
  exact (formatter_raises _ _ _ _ E).
Qed.

Lemma dispatch_total (operator : pyval) (field : string) (value : pyval) :
  raises_only any_exception (dispatch operator field value).
Proof.
  destruct operator; try exact I.
  apply (raises_only_weaken is_filter_error); [intros; exact I|].
  apply dispatch_string_raises.
Qed.

(** ** The recursion: fuel, and the equation of [compile] *)

Lemma _parse_logical_condition_ext (f g : pyval -> outcome string) (c : pyval) :
  (forall x, depth x < depth c -> f x = g x) ->
  _parse_logical_condition f c = _parse_logical_condition g c.
Proof.
  intros H. unfold _parse_logical_condition.
  destruct (contains "operator" c) as [[|]| |]; simpl; try reflexivity.
  destruct (contains "conditions" c) as [[|]| |]; simpl; try reflexivity.
  destruct (getitem c "operator") as [operator| |]; simpl; try reflexivity.
  destruct (getitem c "conditions") as [children| |] eqn:Hc; simpl; try reflexivity.
  destruct (truthy children); simpl; try reflexivity.
  destruct (iterate children) as [items| |] eqn:Hi; simpl; try reflexivity.
  rewrite (comprehension_ext_in f g items); [reflexivity|].
  intros x Hx. apply H.
  pose proof (depth_iterate _ _ _ Hi Hx) as Hle.
  destruct c as [ | | | | | |d]; simpl in Hc; try discriminate.
  destruct (dict_get "conditions" d) as [w|] eqn:Hg; try discriminate.
  injection Hc as ->. pose proof (depth_dict_get _ _ _ Hg). lia.
Qed.

Lemma _parse_comparison_body_ext (f g : pyval -> outcome string) (c : pyval) :
  (forall x, depth x < depth c -> f x = g x) ->
  _parse_comparison_body f c = _parse_comparison_body g c.
Proof.
  intros H. unfold _parse_comparison_body.
  destruct (contains "field" c) as [[|]| |]; simpl; try reflexivity.
  apply _parse_logical_condition_ext. exact H.
Qed.

(** Fuel beyond the depth of the node changes nothing. *)
Lemma fuel_irrelevant (n : nat) :
  forall (m : nat) (c : pyval),
    depth c < n -> depth c < m ->
    _parse_comparison_condition n c = _parse_comparison_condition m c.
Proof.
  induction n as [|n IH]; intros m c Hn Hm; [lia|].
  destruct m as [|m]; [lia|]. simpl.
  apply _parse_comparison_body_ext.
  intros x Hx. apply IH; lia.
Qed.

(** [compile] satisfies the recursive equation of the source function. *)
Lemma compile_unfold (c : pyval) :
  compile c = _parse_comparison_body compile c.
Proof.
  unfold compile at 1. simpl.
  apply _parse_comparison_body_ext.
  intros x Hx. unfold compile. apply fuel_irrelevant; lia.
Qed.

Lemma compile_fuel (n : nat) (c : pyval) :
  depth c < n -> _parse_comparison_condition n c = compile c.
Proof. intros H. unfold compile. apply fuel_irrelevant; lia. Qed.

Lemma compile_logical (c : pyval) :
  contains "field" c = Return false ->
  compile c = _parse_logical_condition compile c.
Proof.
  intros H. rewrite compile_unfold. unfold _parse_comparison_body.
  rewrite H. reflexivity.
Qed.

(** On a dictionary the entry point is [compile]. *)
Lemma normalize_filters_dict (d : list (string * pyval)) :
  normalize_filters (PDict d) = compile (PDict d).
Proof.
  unfold normalize_filters. simpl.
  destruct (dict_mem "field" d) eqn:E; [reflexivity|].
  symmetry. apply compile_logical. simpl. rewrite E. reflexivity.
Qed.

Lemma contains_total (key : string) (c : pyval) :
  raises_only any_exception (contains key c).
Proof. destruct c; exact I. Qed.

Lemma getitem_total (c : pyval) (key : string) :
  raises_only any_exception (getitem c key).
Proof.
  destruct c; simpl; try exact I. destruct (dict_get key items); exact I.
Qed.

Lemma getitem_depth (c : pyval) (key : string) (v : pyval) :
  getitem c key = Return v -> depth v < depth c.
Proof.
  destruct c as [ | | | | | |d]; simpl; try discriminate.
  destruct (dict_get key d) as [w|] eqn:E; try discriminate.
  intros H. injection H as ->. exact (depth_dict_get _ _ _ E).
Qed.

Lemma _parse_logical_condition_total (recurse : pyval -> outcome string) (c : pyval) :
  (forall x, depth x < depth c -> raises_only any_exception (recurse x)) ->
  raises_only any_exception (_parse_logical_condition recurse c).
Proof.
  intros H. unfold _parse_logical_condition.
  apply raises_only_bind; [apply contains_total|].
  intros [|] _; simpl; [|exact I].
  apply raises_only_bind; [apply contains_total|].
  intros [|] _; simpl; [|exact I].
  apply raises_only_bind; [apply getitem_total|]. intros operator _.
  apply raises_only_bind; [apply getitem_total|]. intros children Hc.
  destruct (truthy children); simpl; [|exact I].
  apply raises_only_bind; [destruct children; exact I|]. intros items Hi.
  apply raises_only_bind.
  - apply raises_only_comprehension. intros x Hx. apply H.
    pose proof (depth_iterate _ _ _ Hi Hx). pose proof (getitem_depth _ _ _ Hc). lia.
  - intros conditions _.
    destruct (eq_str operator "AND"); [exact I|].
    destruct (eq_str operator "OR"); [exact I|].
    destruct (eq_str operator "NOT"); exact I.
Qed.

Lemma _parse_comparison_body_total (recurse : pyval -> outcome string) (c : pyval) :
  (forall x, depth x < depth c -> raises_only any_exception (recurse x)) ->
  raises_only any_exception (_parse_comparison_body recurse c).
Proof.
  intros H. unfold _parse_comparison_body.
  apply raises_only_bind; [apply contains_total|].
  intros [|] _; simpl; [|apply _parse_logical_condition_total; exact H].
  apply raises_only_bind; [apply getitem_total|]. intros field _.
  destruct (as_str field) as [name|]; [|exact I].
  apply raises_only_bind; [apply contains_total|].
  intros [|] _; simpl; [|exact I].
  apply raises_only_bind; [apply contains_total|].
  intros [|] _; simpl; [|exact I].
  apply raises_only_bind; [apply getitem_total|]. intros operator _.
  apply raises_only_bind; [apply getitem_total|]. intros value _.
  apply dispatch_total.
Qed.

(** The compilation always ends: with fuel above the depth of the node
    the recursion never runs out. *)
Lemma _parse_comparison_condition_total (n : nat) :
  forall c, depth c < n ->
    raises_only any_exception (_parse_comparison_condition n c).
Proof.
  induction n as [|n IH]; intros c Hn; [lia|]. simpl.
  apply _parse_comparison_body_total. intros x Hx. apply IH. lia.
Qed.

Lemma compile_total (c : pyval) : raises_only any_exception (compile c).
Proof. apply _parse_comparison_condition_total. lia. Qed.

Lemma normalize_filters_total (filters : pyval) :
  raises_only any_exception (normalize_filters filters).
Proof.
  destruct filters; try exact I.
  rewrite normalize_filters_dict. apply compile_total.
Qed.

(** ** The two kinds of node *)

Lemma dict_mem_get (key : string) (d : list (string * pyval)) (v : pyval) :
  dict_get key d = Some v -> dict_mem key d = true.
Proof. unfold dict_mem. intros ->. reflexivity. Qed.

(** A comparison node: the formatter of the operator is called with the
    emitted field name and the value. *)
Lemma comparison_node (d : list (string * pyval))
    (field : string) (operator value : pyval) :
  dict_get "field" d = Some (PStr field) ->
  dict_get "operator" d = Some operator ->
  dict_get "value" d = Some value ->
  normalize_filters (PDict d) = dispatch operator (emitted_field field) value.
Proof.
  intros Hf Ho Hv. rewrite normalize_filters_dict, compile_unfold.
  unfold _parse_comparison_body. simpl.
  rewrite (dict_mem_get _ _ _ Hf), (dict_mem_get _ _ _ Ho), (dict_mem_get _ _ _ Hv).
  rewrite Hf, Ho, Hv. reflexivity.
Qed.

(** A logical node: the children are compiled in order, then joined. *)
Lemma logical_node (d : list (string * pyval)) (operator children : pyval) :
  dict_get "field" d = None ->
  dict_get "operator" d = Some operator ->
  dict_get "conditions" d = Some children ->
  normalize_filters (PDict d) =
    if negb (truthy children)
    then Raise (FilterError (MsgNeedsCondition operator))
    else
      items <- iterate children ;;
      conditions <- comprehension compile items ;;
      if eq_str operator "AND"
      then Return ("(" ++ join " and " conditions ++ ")")
      else if eq_str operator "OR"
      then Return ("(" ++ join " or " conditions ++ ")")
      else if eq_str operator "NOT"
      then Return ("!(" ++ join " and " conditions ++ ")")
      else Raise (FilterError (MsgUnknownLogical operator)).
Proof.
  intros Hf Ho Hc. rewrite normalize_filters_dict, compile_logical.
  - unfold _parse_logical_condition. simpl.
    rewrite (dict_mem_get _ _ _ Ho), (dict_mem_get _ _ _ Hc).
    rewrite Ho, Hc. reflexivity.
  - simpl. unfold dict_mem. rewrite Hf. reflexivity.
Qed.

Lemma startswith_split (p : string) :
  forall s, startswith s p = true -> exists rest, s = p ++ rest.
Proof.
  induction p as [|a p IH]; intros s H.
  - exists s. reflexivity.
  - destruct s as [|b s]; simpl in H; [discriminate|].
    apply andb_true_iff in H. destruct H as [Hab H].
    apply Ascii.eqb_eq in Hab. subst b.
    destruct (IH s H) as [rest ->]. exists rest. reflexivity.
Qed.

Lemma startswith_app (p rest : string) : startswith (p ++ rest) p = true.
Proof.
  induction p as [|a p IH]; simpl; [reflexivity|].
  rewrite Ascii.eqb_refl. exact IH.
Qed.

Lemma startswith_meta (field : string) :
  startswith field "meta." = true <-> exists rest, field = "meta." ++ rest.
Proof.
  split.
  - apply startswith_split.
  - intros [rest ->]. apply startswith_app.
Qed.

Lemma emitted_field_meta (rest : string) : emitted_field ("meta." ++ rest) = rest.
Proof.
  unfold emitted_field. rewrite startswith_app. reflexivity.
Qed.

Lemma emitted_field_other (field : string) :
  startswith field "meta." = false -> emitted_field field = field.
Proof. unfold emitted_field. intros ->. reflexivity. Qed.

(** ** Strings *)

Lemma length_append (a b : string) :
  String.length (a ++ b) = String.length a + String.length b.
Proof. induction a as [|c a IH]; simpl; [reflexivity|]. rewrite IH. reflexivity. Qed.

Lemma append_assoc (a b c : string) : (a ++ b) ++ c = a ++ b ++ c.
Proof. induction a as [|x a IH]; simpl; [reflexivity|]. rewrite IH. reflexivity. Qed.

Lemma replace_append (old : ascii) (new a b : string) :
  replace old new (a ++ b) = replace old new a ++ replace old new b.
Proof.
  induction a as [|c a IH]; simpl; [reflexivity|].
  destruct (Ascii.eqb c old); rewrite IH.
  - rewrite append_assoc. reflexivity.
  - reflexivity.
Qed.

(** The two replacements in a row, backslash first, are the escaping of
    every character once. *)
Lemma replace_twice (quote : ascii) (s : string) :
  quote <> BACKSLASH ->
  replace quote (chr BACKSLASH ++ chr quote)
    (replace BACKSLASH (chr BACKSLASH ++ chr BACKSLASH) s)
  = escape_each quote s.
Proof.
  intros Hq. induction s as [|c s IH]; [reflexivity|].
  cbn [replace escape_each]. unfold escape_char.
  destruct (Ascii.eqb_spec c BACKSLASH) as [->|Hc].
  - rewrite replace_append, IH. cbn [replace chr append].
    destruct (Ascii.eqb_spec BACKSLASH quote) as [E|_]; [congruence|].
    reflexivity.
  - cbn [replace]. destruct (Ascii.eqb c quote); rewrite IH; reflexivity.
Qed.

Lemma unescape_escape_each (quote : ascii) (s : string) :
  unescape (escape_each quote s) = s.
Proof.
  unfold unescape. induction s as [|c s IH]; [reflexivity|].
  cbn [escape_each]. unfold escape_char.
  destruct (Ascii.eqb_spec c BACKSLASH) as [->|Hc].
  - cbn [chr append unescape_from]. rewrite Ascii.eqb_refl, IH. reflexivity.
  - destruct (Ascii.eqb c quote) eqn:Ecq.
    + cbn [chr append unescape_from]. rewrite Ascii.eqb_refl.
      apply Ascii.eqb_eq in Ecq. subst. rewrite IH. reflexivity.
    + cbn [chr append unescape_from].
      destruct (Ascii.eqb_spec c BACKSLASH) as [E|_]; [contradiction|].
      rewrite IH. reflexivity.
Qed.

(** ** The length of what is emitted *)













Lemma well_typed_entry (d : list (string * pyval)) (key : string) (v : pyval) :
  well_typed (PDict d) = true ->
  dict_get key d = Some v ->
  (key = "field" -> isinstance_str v = true) /\
  (key = "operator" -> isinstance_str v = true) /\
  (key = "conditions" -> exists l, v = PList l /\ forallb well_typed l = true).
Proof.
  cbn [well_typed]. induction d as [|[k w] d IH]; cbn [forallb dict_get];
    intros Hw Hg; [discriminate|].
  apply andb_true_iff in Hw. destruct Hw as [Hk Hd].
  destruct (String.eqb_spec k key) as [->|Hne]; [|exact (IH Hd Hg)].
  injection Hg as ->. repeat split; intros ->; cbn in Hk; [exact Hk|exact Hk|].
  destruct v; try discriminate. eexists. split; [reflexivity|exact Hk].
Qed.

Lemma compile_well_typed (n : nat) :
  forall c, depth c < n -> well_typed c = true ->
    raises_only is_filter_error (compile c).
Proof.
  induction n as [|n IH]; intros c Hn Hw; [lia|].
  destruct c as [ | | | | | |d]; try discriminate.
  rewrite compile_unfold. unfold _parse_comparison_body.
  cbn [contains bind]. unfold dict_mem.
  destruct (dict_get "field" d) as [field|] eqn:Hf; cbn [negb].
  - cbn [getitem]. rewrite Hf. cbn [bind].
    destruct (well_typed_entry _ _ _ Hw Hf) as [Hs _].
    specialize (Hs eq_refl). destruct field; try discriminate. cbn [as_str].
    destruct (dict_get "operator" d) as [operator|] eqn:Ho; cbn [negb]; [|exact I].
    destruct (dict_get "value" d) as [value|] eqn:Hv; cbn [negb bind]; [|exact I].
    destruct (well_typed_entry _ _ _ Hw Ho) as [_ [Hos _]].
    specialize (Hos eq_refl). destruct operator; try discriminate.
    apply dispatch_string_raises.
  - unfold _parse_logical_condition. cbn [contains bind]. unfold dict_mem.
    destruct (dict_get "operator" d) as [operator|] eqn:Ho; cbn [negb]; [|exact I].
    destruct (dict_get "conditions" d) as [children|] eqn:Hc; cbn [negb]; [|exact I].
    cbn [getitem]. rewrite Ho, Hc. cbn [bind].
    destruct (well_typed_entry _ _ _ Hw Hc) as [_ [_ Hl]].
    destruct (Hl eq_refl) as [l [-> Hall]].
    destruct (negb (truthy (PList l))); [exact I|].
    cbn [iterate bind].
    apply raises_only_bind.
    + apply raises_only_comprehension. intros x Hx. apply IH.
      * pose proof (depth_element _ _ Hx). pose proof (depth_dict_get _ _ _ Hc). lia.
      * rewrite forallb_forall in Hall. exact (Hall x Hx).
    + intros conditions _.
      destruct (eq_str operator "AND"); [exact I|].
      destruct (eq_str operator "OR"); [exact I|].
      destruct (eq_str operator "NOT"); exact I.
Qed.

(** ** The heap model: what a call does to the heap *)

Lemma unchanged_refl (h : Heap.heap) : unchanged h h.
Proof. intros l o H. exact H. Qed.

Lemma unchanged_trans (h1 h2 h3 : Heap.heap) :
  unchanged h1 h2 -> unchanged h2 h3 -> unchanged h1 h3.
Proof. intros H12 H23 l o H. apply H23, H12, H. Qed.

Lemma unchanged_alloc (h : Heap.heap) (o : Heap.obj) : unchanged h (h ++ [o])%list.
Proof.
  intros l o' H. rewrite nth_error_app1; [exact H|].
  apply nth_error_Some. congruence.
Qed.

Lemma nth_error_update_same (h : Heap.heap) :
  forall l o o', nth_error h l = Some o' -> nth_error (Heap.update l o h) l = Some o.
Proof.
  induction h as [|x h IH]; intros l o o' H; destruct l; simpl in *;
    try discriminate; [reflexivity|eauto].
Qed.

Lemma nth_error_update_other (h : Heap.heap) :
  forall l l' o, l <> l' -> nth_error (Heap.update l o h) l' = nth_error h l'.
Proof.
  induction h as [|x h IH]; intros l l' o H; destruct l, l'; simpl;
    try reflexivity; try congruence.
  apply IH. congruence.
Qed.

(** A store at an address that [h0] does not have leaves the objects of
    [h0] as they were. *)
Lemma unchanged_update (h0 h : Heap.heap) (l : Heap.loc) (o : Heap.obj) :
  nth_error h0 l = None -> unchanged h0 h -> unchanged h0 (Heap.update l o h).
Proof.
  intros Hfresh Hu l' o' H.
  rewrite nth_error_update_other; [apply Hu, H|].
  intros ->. congruence.
Qed.

Lemma denotes_unchanged_depth (n : nat) :
  forall h h' v t,
    depth t < n -> unchanged h h' -> denotes h v t -> denotes h' v t.
Proof.
  induction n as [|n IH]; intros h h' v t Hn Hu Hd; [lia|].
  inversion Hd as [ | | | | |l items trees Hl Hall|l items trees Hl Hall]; subst;
    try constructor.
  - apply denotes_list with (items := items); [apply Hu, Hl|].
    assert (Hlt : forall x, In x trees -> depth x < n)
      by (intros x Hx; pose proof (depth_element _ _ Hx); lia).
    clear Hl Hd Hn. induction Hall as [|w x ws xs Hwx _ IHall]; constructor.
    + apply (IH h h'); [apply Hlt; left; reflexivity|exact Hu|exact Hwx].
    + apply IHall. intros y Hy. apply Hlt. right. exact Hy.
  - apply denotes_dict with (items := items); [apply Hu, Hl|].
    assert (Hlt : forall kt, In kt trees -> depth (snd kt) < n).
    { intros kt Hx. simpl in Hn.
      assert (depth (snd kt) <=
              fold_right (fun kv m => Nat.max (depth (snd kv)) m) 0 trees).
      { clear - Hx. induction trees as [|a l IHl]; [contradiction|].
        simpl. destruct Hx as [->|Hx]; [lia|]. specialize (IHl Hx). lia. }
      lia. }
    clear Hl Hd Hn. induction Hall as [|w x ws xs [Hk Hwx] _ IHall]; constructor.
    + split; [exact Hk|].
      apply (IH h h'); [apply Hlt; left; reflexivity|exact Hu|exact Hwx].
    + apply IHall. intros y Hy. apply Hlt. right. exact Hy.
Qed.

Lemma denotes_unchanged (h h' : Heap.heap) (v : Heap.val) (t : pyval) :
  unchanged h h' -> denotes h v t -> denotes h' v t.
Proof. apply (denotes_unchanged_depth (S (depth t))). lia. Qed.

Lemma Forall2_denotes_unchanged (h h' : Heap.heap) items trees :
  unchanged h h' -> Forall2 (denotes h) items trees -> Forall2 (denotes h') items trees.
Proof.
  intros Hu H. induction H; constructor; [eapply denotes_unchanged; eauto|assumption].
Qed.

Lemma read_all_Forall2 {A B : Type} (f : A -> option B) (R : A -> B -> Prop)
    (l : list A) (l' : list B) :
  Forall2 (fun a b => R a b /\ (R a b -> f a = Some b)) l l' ->
  Heap.read_all f l = Some l'.
Proof.
  induction 1 as [|a b l l' [Hr Hf] _ IH]; simpl; [reflexivity|].
  rewrite (Hf Hr), IH. reflexivity.
Qed.

(** Reading a value gives the tree it stands for. *)
Lemma read_denotes (fuel : nat) :
  forall h v t, denotes h v t -> depth t <= fuel -> Heap.read fuel h v = Some t.
Proof.
  induction fuel as [|fuel IH]; intros h v t Hd Hn;
    inversion Hd as [ | | | | |l items trees Hl Hall|l items trees Hl Hall]; subst;
    try reflexivity; simpl in Hn; try lia.
  - simpl. rewrite Hl.
    rewrite (read_all_Forall2 _ (denotes h) items trees); [reflexivity|].
    assert (Hlt : forall x, In x trees -> depth x <= fuel)
      by (intros x Hx; pose proof (depth_element _ _ Hx) as Hp; simpl in Hp; lia).
    clear Hl Hd Hn. induction Hall as [|w x ws xs Hwx _ IHall]; constructor.
    + split; [exact Hwx|]. intros _. apply IH; [exact Hwx|].
      apply Hlt. left. reflexivity.
    + apply IHall. intros y Hy. apply Hlt. right. exact Hy.
  - simpl. rewrite Hl.
    rewrite (read_all_Forall2 _
               (fun kv kt => fst kv = fst kt /\ denotes h (snd kv) (snd kt))
               items trees); [reflexivity|].
    assert (Hlt : forall kt, In kt trees -> depth (snd kt) <= fuel).
    { intros kt Hx.
      assert (depth (snd kt) <=
              fold_right (fun kv m => Nat.max (depth (snd kv)) m) 0 trees).
      { clear - Hx. induction trees as [|a l IHl]; [contradiction|].
        simpl. destruct Hx as [->|Hx]; [lia|]. specialize (IHl Hx). lia. }
      lia. }
    clear Hl Hd Hn. induction Hall as [|w x ws xs [Hk Hwx] _ IHall]; constructor.
    + split; [split; assumption|]. intros _.
      rewrite (IH h (snd w) (snd x) Hwx); [|apply Hlt; left; reflexivity].
      simpl. rewrite Hk. destruct x; reflexivity.
    + apply IHall. intros y Hy. apply Hlt. right. exact Hy.
Qed.

Lemma snapshot_denotes (fuel : nat) (h : Heap.heap) (v : Heap.val) (t : pyval) :
  denotes h v t -> depth t <= fuel -> Heap.snapshot fuel v h = (Return t, h).
Proof.
  intros Hd Hn. unfold Heap.snapshot. rewrite (read_denotes _ _ _ _ Hd Hn).
  reflexivity.
Qed.

(** The readings of a value agree with those of the tree it stands for,
    and leave the heap as it is. *)

Lemma as_str_denotes h v t : denotes h v t -> Heap.as_str v = as_str t.
Proof. destruct 1; reflexivity. Qed.

Lemma as_bool_denotes h v t : denotes h v t -> Heap.as_bool v = as_bool t.
Proof. destruct 1; reflexivity. Qed.

Lemma as_number_denotes h v t : denotes h v t -> Heap.as_number v = as_number t.
Proof. destruct 1; reflexivity. Qed.

Lemma eq_str_denotes h v t s : denotes h v t -> Heap.eq_str v s = eq_str t s.
Proof. destruct 1; reflexivity. Qed.

Lemma type_of_denotes h v t :
  denotes h v t -> Heap.type_of v h = (Return (type_of t), h).
Proof.
  destruct 1 as [ | | | | |l items trees Hl _|l items trees Hl _]; try reflexivity;
    simpl; unfold Heap.bind, Heap.load; rewrite Hl; reflexivity.
Qed.

Lemma isinstance_list_denotes h v t :
  denotes h v t -> Heap.isinstance_list v h = (Return (isinstance_list t), h).
Proof.
  destruct 1 as [ | | | | |l items trees Hl _|l items trees Hl _]; try reflexivity;
    simpl; unfold Heap.bind, Heap.load; rewrite Hl; reflexivity.
Qed.

Lemma isinstance_dict_denotes h v t :
  denotes h v t -> Heap.isinstance_dict v h = (Return (isinstance_dict t), h).
Proof.
  destruct 1 as [ | | | | |l items trees Hl _|l items trees Hl _]; try reflexivity;
    simpl; unfold Heap.bind, Heap.load; rewrite Hl; reflexivity.
Qed.

Lemma truthy_denotes h v t :
  denotes h v t -> Heap.truthy v h = (Return (truthy t), h).
Proof.
  destruct 1 as [ | | |f|s|l items trees Hl Hall|l items trees Hl Hall];
    try reflexivity.
  - destruct f; reflexivity.
  - destruct s; reflexivity.
  - simpl. unfold Heap.bind, Heap.load. rewrite Hl.
    destruct Hall; reflexivity.
  - simpl. unfold Heap.bind, Heap.load. rewrite Hl.
    destruct Hall; reflexivity.
Qed.

Lemma dict_get_denotes h items trees key :
  Forall2 (fun kv kt => fst kv = fst kt /\ denotes h (snd kv) (snd kt)) items trees ->
  match dict_get key trees with
  | Some t' => exists v', Heap.dict_get key items = Some v' /\ denotes h v' t'
  | None => Heap.dict_get key items = None
  end.
Proof.
  induction 1 as [|[k v] [k' t] items trees [Hk Hd] _ IH]; simpl; [reflexivity|].
  simpl in Hk, Hd. subst k'.
  destruct (String.eqb k key); [|exact IH].
  exists v. split; [reflexivity|exact Hd].
Qed.

Lemma dict_mem_denotes h items trees key :
  Forall2 (fun kv kt => fst kv = fst kt /\ denotes h (snd kv) (snd kt)) items trees ->
  Heap.dict_mem key items = dict_mem key trees.
Proof.
  intros H. pose proof (dict_get_denotes h items trees key H) as E.
  unfold Heap.dict_mem, dict_mem.
  destruct (dict_get key trees); [destruct E as [v' [-> _]]|rewrite E]; reflexivity.
Qed.

Lemma contains_denotes h v t key :
  denotes h v t -> Heap.contains key v h = (contains key t, h).
Proof.
  destruct 1 as [ | | | | |l items trees Hl Hall|l items trees Hl Hall];
    try reflexivity.
  - simpl. unfold Heap.bind, Heap.load. rewrite Hl. unfold Heap.ret. do 2 f_equal.
    clear Hl. induction Hall as [|w x ws xs Hwx _ IH]; simpl; [reflexivity|].
    rewrite (eq_str_denotes _ _ _ key Hwx), IH. reflexivity.
  - simpl. unfold Heap.bind, Heap.load. rewrite Hl. unfold Heap.ret.
    rewrite (dict_mem_denotes h items trees key Hall). reflexivity.
Qed.

Lemma getitem_denotes h v t key :
  denotes h v t ->
  match getitem t key with
  | Return t' => exists v', Heap.getitem v key h = (Return v', h) /\ denotes h v' t'
  | Raise e => Heap.getitem v key h = (Raise e, h)
  | Undefined => True
  end.
Proof.
  destruct 1 as [ | | | | |l items trees Hl Hall|l items trees Hl Hall];
    try reflexivity.
  - simpl. unfold Heap.bind, Heap.load. rewrite Hl. reflexivity.
  - simpl. unfold Heap.bind, Heap.load. rewrite Hl.
    pose proof (dict_get_denotes h items trees key Hall) as E.
    destruct (dict_get key trees) as [t'|].
    + destruct E as [v' [-> Hd]]. exists v'. split; [reflexivity|exact Hd].
    + rewrite E. reflexivity.
Qed.

Lemma chars_denotes h s : Forall2 (denotes h) (Heap.chars s) (chars s).
Proof. induction s; simpl; constructor; [constructor|assumption]. Qed.

Lemma iterate_denotes h v t :
  denotes h v t ->
  match iterate t with
  | Return trees =>
      exists items, Heap.iterate v h = (Return items, h) /\ Forall2 (denotes h) items trees
  | Raise e => Heap.iterate v h = (Raise e, h)
  | Undefined => True
  end.
Proof.
  destruct 1 as [ | | | |s|l items trees Hl Hall|l items trees Hl Hall];
    try reflexivity.
  - exists (Heap.chars s). split; [reflexivity|apply chars_denotes].
  - exists items. split; [|exact Hall].
    simpl. unfold Heap.bind, Heap.load. rewrite Hl. reflexivity.
  - exists (map (fun kv => Heap.VStr (fst kv)) items). split.
    + simpl. unfold Heap.bind, Heap.load. rewrite Hl. reflexivity.
    + clear Hl. induction Hall as [|w x ws xs [Hk _] _ IH]; simpl; constructor.
      * rewrite Hk. constructor.
      * exact IH.
Qed.

Lemma runs_to_exact {A : Type} (h : Heap.heap) (m : Heap.M A) (o : outcome A) :
  m h = (o, h) -> runs_to h m o.
Proof. intros E. exists h. split; [exact E|apply unchanged_refl]. Qed.

Lemma runs_to_bind {A B : Type} (h : Heap.heap)
    (m : Heap.M A) (o : outcome A) (k : A -> Heap.M B) (k' : A -> outcome B) :
  runs_to h m o ->
  (forall a h', o = Return a -> unchanged h h' -> runs_to h' (k a) (k' a)) ->
  runs_to h (Heap.bind m k) (bind o k').
Proof.
  intros [h1 [E U]] Hk. unfold runs_to, Heap.bind. rewrite E.
  destruct o as [a|e|]; simpl.
  - destruct (Hk a h1 eq_refl U) as [h2 [E2 U2]].
    exists h2. split; [exact E2|exact (unchanged_trans _ _ _ U U2)].
  - exists h1. split; [reflexivity|exact U].
  - exists h1. split; [reflexivity|exact U].
Qed.

Lemma bind_exact {A B : Type} (h : Heap.heap)
    (m : Heap.M A) (o : outcome A) (k : A -> Heap.M B) :
  m h = (o, h) ->
  Heap.bind m k h =
    match o with
    | Return a => k a h
    | Raise e => (Raise e, h)
    | Undefined => (Undefined, h)
    end.
Proof. intros E. unfold Heap.bind. rewrite E. destruct o; reflexivity. Qed.

Section HeapFormatters.

Variable fuel : nat.

Lemma _format_value_heap h v t :
  denotes h v t ->
  Heap._format_value repr_finite fuel v h = (_format_value t, h).
Proof.
  intros Hd. unfold Heap._format_value, _format_value.
  rewrite (as_str_denotes _ _ _ Hd), (as_bool_denotes _ _ _ Hd),
    (as_number_denotes _ _ _ Hd).
  destruct (as_str t); [reflexivity|].
  destruct (as_bool t); [reflexivity|].
  destruct (as_number t) as [n|] eqn:En.
  - destruct (isinstance_float n && (math_isinf n || math_isnan n)); [|reflexivity].
    rewrite (bind_exact _ _ (Return t)); [reflexivity|].
    apply snapshot_denotes; [exact Hd|].
    destruct t; simpl in En; try discriminate; simpl; lia.
  - rewrite (bind_exact _ _ _ _ (type_of_denotes _ _ _ Hd)). reflexivity.
Qed.

Lemma _validate_range_value_heap h v t :
  denotes h v t ->
  Heap._validate_range_value v h = (_validate_range_value t, h).
Proof.
  intros Hd. unfold Heap._validate_range_value, _validate_range_value.
  assert (E : forall B (k : bool -> Heap.M B),
             Heap.bind (Heap.isinstance_list v) k h = k (isinstance_list t) h)
    by (intros; rewrite (bind_exact _ _ _ _ (isinstance_list_denotes _ _ _ Hd));
        reflexivity).
  destruct Hd as [ | | | | |l items trees Hl Hall|l items trees Hl Hall];
    try reflexivity; rewrite E; cbn [isinstance_list]; try reflexivity.
  rewrite (bind_exact _ _ (Return Tlist)); [reflexivity|].
  apply (type_of_denotes _ _ (PList trees)). econstructor; eassumption.
Qed.

Lemma _equal_heap h field v t :
  denotes h v t ->
  Heap._equal repr_finite fuel field v h = (_equal field t, h).
Proof.
  intros Hd. unfold Heap._equal, _equal.
  inversion Hd; subst; cbn [Heap.as_str as_str]; try reflexivity;
    rewrite (bind_exact _ _ _ _ (_format_value_heap _ _ _ Hd));
    destruct (_format_value _); reflexivity.
Qed.

Lemma _not_equal_heap h field v t :
  denotes h v t ->
  Heap._not_equal repr_finite fuel field v h = (_not_equal field t, h).
Proof.
  intros Hd. unfold Heap._not_equal, _not_equal.
  inversion Hd; subst; cbn [Heap.as_str as_str]; try reflexivity;
    rewrite (bind_exact _ _ _ _ (_format_value_heap _ _ _ Hd));
    destruct (_format_value _); reflexivity.
Qed.

Lemma range_heap h v t (k : string -> string) :
  denotes h v t ->
  Heap.bind (Heap._validate_range_value v)
    (fun _ => Heap.bind (Heap._format_value repr_finite fuel v)
                (fun r => Heap.ret (k r))) h
  = (_ <- _validate_range_value t ;; r <- _format_value t ;; Return (k r), h).
Proof.
  intros Hd.
  rewrite (bind_exact _ _ _ _ (_validate_range_value_heap _ _ _ Hd)).
  destruct (_validate_range_value t) as [u| |]; try reflexivity.
  rewrite (bind_exact _ _ _ _ (_format_value_heap _ _ _ Hd)).
  destruct (_format_value t); reflexivity.
Qed.

End HeapFormatters.

Section HeapLoops.

Variable fuel : nat.

(** One turn of the loop of [_in]: the list [formatted_values], which is
    not an object of [h0], gets one more text; the objects of [h0] stay
    as they were. *)
Lemma _in_body_heap (h0 h : Heap.heap) (fv : Heap.loc) (done : list string)
    (w : Heap.val) (x : pyval) :
  nth_error h0 fv = None ->
  unchanged h0 h ->
  nth_error h fv = Some (Heap.OList (map Heap.VStr done)) ->
  denotes h w x ->
  match _in_element x with
  | Return y =>
      exists h',
        Heap._in_body repr_finite fv w h = (Return tt, h') /\
        unchanged h0 h' /\
        nth_error h' fv = Some (Heap.OList (map Heap.VStr (done ++ [y])%list))
  | Raise e => Heap._in_body repr_finite fv w h = (Raise e, h)
  | Undefined => True
  end.
Proof.
  intros Hfresh Hu Hfv Hd.
  assert (Happend : forall y,
            exists h',
              Heap.list_append fv (Heap.VStr y) h = (Return tt, h') /\
              unchanged h0 h' /\
              nth_error h' fv = Some (Heap.OList (map Heap.VStr (done ++ [y])%list))).
  { intros y. eexists. unfold Heap.list_append, Heap.bind, Heap.load, Heap.store.
    rewrite Hfv. rewrite Hfv. split; [reflexivity|]. split.
    - apply unchanged_update; assumption.
    - rewrite (nth_error_update_same _ _ _ _ Hfv), map_app. reflexivity. }
  unfold Heap._in_body, _in_element.
  inversion Hd; subst; cbn [Heap.as_str Heap.as_bool Heap.as_number
                            as_str as_bool as_number]; try apply Happend;
    rewrite (bind_exact _ _ _ _ (type_of_denotes _ _ _ Hd)); reflexivity.
Qed.

Lemma _in_loop_heap (h0 : Heap.heap) (fv : Heap.loc) :
  nth_error h0 fv = None ->
  forall items trees,
    Forall2 (denotes h0) items trees ->
    forall h done,
      unchanged h0 h ->
      nth_error h fv = Some (Heap.OList (map Heap.VStr done)) ->
      match comprehension _in_element trees with
      | Return fragments =>
          exists h',
            Heap.for_each items (Heap._in_body repr_finite fv) h = (Return tt, h') /\
            unchanged h0 h' /\
            nth_error h' fv =
              Some (Heap.OList (map Heap.VStr (done ++ fragments)%list))
      | Raise e =>
          exists h',
            Heap.for_each items (Heap._in_body repr_finite fv) h = (Raise e, h') /\
            unchanged h0 h'
      | Undefined => True
      end.
Proof.
  intros Hfresh items trees Hall.
  induction Hall as [|w x ws xs Hwx _ IH]; intros h done Hu Hfv.
  - simpl. exists h. rewrite app_nil_r. repeat split; assumption.
  - cbn [comprehension Heap.for_each].
    pose proof (_in_body_heap h0 h fv done w x Hfresh Hu Hfv
                  (denotes_unchanged _ _ _ _ Hu Hwx)) as Hstep.
    unfold Heap.bind.
    destruct (_in_element x) as [y|e|]; cbn [bind]; [| |exact I].
    + destruct Hstep as [h1 [E1 [U1 F1]]]. rewrite E1.
      specialize (IH h1 (done ++ [y])%list U1 F1).
      destruct (comprehension _in_element xs) as [ys|e|]; cbn [bind]; [| |exact I].
      * destruct IH as [h2 [E2 [U2 F2]]]. exists h2.
        rewrite <- app_assoc in F2. repeat split; assumption.
      * exact IH.
    + rewrite Hstep. exists h. split; [reflexivity|exact Hu].
Qed.

Lemma strings_map_VStr (texts : list string) :
  Heap.strings (map Heap.VStr texts) = Some texts.
Proof. induction texts as [|a l IH]; simpl; [reflexivity|]. rewrite IH. reflexivity. Qed.

Lemma join_heap (h : Heap.heap) (fv : Heap.loc) (texts : list string) (sep : string) :
  nth_error h fv = Some (Heap.OList (map Heap.VStr texts)) ->
  Heap.join sep fv h = (Return (join sep texts), h).
Proof.
  intros H. unfold Heap.join, Heap.bind, Heap.load. rewrite H.
  rewrite strings_map_VStr. reflexivity.
Qed.

Lemma nth_error_length_None {A : Type} (l : list A) : nth_error l (length l) = None.
Proof. apply nth_error_None. lia. Qed.

Lemma _in_element_total (x : pyval) : _in_element x <> Undefined.
Proof. destruct x; discriminate. Qed.

Lemma _in_heap h field v t :
  denotes h v t ->
  runs_to h (Heap._in repr_finite field v) (_in field t).
Proof.
  intros Hd. unfold runs_to.
  destruct (Heap._in repr_finite field v h) as [o h'] eqn:E. exists h'.
  unfold Heap._in in E.
  rewrite (bind_exact _ _ _ _ (isinstance_list_denotes _ _ _ Hd)) in E.
  destruct t as [ | | | | |trees| ]; cbn [isinstance_list negb] in E;
    try (injection E as <- <-; split; [reflexivity|apply unchanged_refl]).
  rewrite (bind_exact _ _ _ _ (truthy_denotes _ _ _ Hd)) in E.
  unfold _in. destruct (negb (truthy (PList trees)));
    [injection E as <- <-; split; [reflexivity|apply unchanged_refl]|].
  unfold Heap.bind at 1 in E. unfold Heap.alloc in E.
  set (fv := length h) in *. set (h1 := (h ++ [Heap.OList []])%list) in *.
  assert (U1 : unchanged h h1) by apply unchanged_alloc.
  assert (Hfresh : nth_error h fv = None) by apply nth_error_length_None.
  assert (F1 : nth_error h1 fv = Some (Heap.OList (map Heap.VStr [])))
    by (unfold h1, fv; rewrite nth_error_app2, Nat.sub_diag; [reflexivity|lia]).
  pose proof (iterate_denotes _ _ _ (denotes_unchanged _ _ _ _ U1 Hd)) as Hi.
  cbn [iterate] in Hi. destruct Hi as [items [Ei Hall1]].
  rewrite (bind_exact _ _ _ _ Ei) in E.
  assert (Hall : Forall2 (denotes h) items trees).
  { inversion Hd as [ | | | | |l items0 trees0 Hl Hall0| ]; subst.
    unfold Heap.iterate, Heap.bind, Heap.load in Ei.
    rewrite (U1 _ _ Hl) in Ei. injection Ei as <-. exact Hall0. }
  pose proof (_in_loop_heap h fv Hfresh items trees Hall h1 [] U1 F1) as Hloop.
  pose proof (comprehension_defined _in_element trees _in_element_total) as Hdef.
  unfold Heap.bind at 1 in E.
  destruct (comprehension _in_element trees) as [fragments|e|]; cbn [bind];
    [| |congruence].
  - destruct Hloop as [h2 [E2 [U2 F2]]]. rewrite E2 in E.
    cbv beta iota in E. cbn [app] in F2.
    rewrite (bind_exact _ _ _ _ (join_heap _ _ _ ", " F2)) in E.
    injection E as <- <-. split; [reflexivity|exact U2].
  - destruct Hloop as [h2 [E2 U2]]. rewrite E2 in E.
    injection E as <- <-. split; [reflexivity|exact U2].
Qed.

Lemma _not_in_heap h field v t :
  denotes h v t ->
  runs_to h (Heap._not_in repr_finite field v) (_not_in field t).
Proof.
  intros Hd. unfold runs_to.
  destruct (Heap._not_in repr_finite field v h) as [o h'] eqn:E. exists h'.
  unfold Heap._not_in in E.
  rewrite (bind_exact _ _ _ _ (isinstance_list_denotes _ _ _ Hd)) in E.
  unfold _not_in. destruct (negb (isinstance_list t));
    [injection E as <- <-; split; [reflexivity|apply unchanged_refl]|].
  destruct (_in_heap h field v t Hd) as [h2 [E2 U2]].
  unfold Heap.bind in E. rewrite E2 in E.
  destruct (_in field t); injection E as <- <-; (split; [reflexivity|exact U2]).
Qed.

Lemma formatter_heap (op : string) (h : Heap.heap) (field : string)
    (v : Heap.val) (t : pyval) :
  denotes h v t ->
  match table_get op COMPARISON_OPERATORS,
        Heap.table_get op (Heap.COMPARISON_OPERATORS repr_finite fuel) with
  | Some formatter, Some formatter' =>
      runs_to h (formatter' field v) (formatter field t)
  | None, None => True
  | _, _ => False
  end.
Proof.
  intros Hd. unfold COMPARISON_OPERATORS, Heap.COMPARISON_OPERATORS.
  cbn [table_get Heap.table_get].
  repeat match goal with
  | |- context [String.eqb ?a op] => destruct (String.eqb a op)
  end; try exact I.
  - apply runs_to_exact, _equal_heap, Hd.
  - apply runs_to_exact, _not_equal_heap, Hd.
  - apply runs_to_exact, (range_heap fuel h v t (fun r => field ++ " > " ++ r) Hd).
  - apply runs_to_exact, (range_heap fuel h v t (fun r => field ++ " >= " ++ r) Hd).
  - apply runs_to_exact, (range_heap fuel h v t (fun r => field ++ " < " ++ r) Hd).
  - apply runs_to_exact, (range_heap fuel h v t (fun r => field ++ " <= " ++ r) Hd).
  - apply _in_heap, Hd.
  - apply _not_in_heap, Hd.
Qed.

Lemma dispatch_heap h operator operator' field v t :
  denotes h operator operator' ->
  denotes h v t ->
  runs_to h (Heap.dispatch repr_finite fuel operator field v)
    (dispatch operator' field t).
Proof.
  intros Ho Hd. unfold Heap.dispatch, dispatch.
  inversion Ho as [ |b|z|f|s|l items trees Hl Hall|l items trees Hl Hall]; subst;
    try (apply runs_to_exact;
         rewrite (bind_exact _ _ _ _ (snapshot_denotes fuel _ _ _ Ho (Nat.le_0_l fuel)));
         reflexivity);
    try (apply runs_to_exact; reflexivity).
  pose proof (formatter_heap s h field v t Hd) as Hf.
  destruct (table_get s COMPARISON_OPERATORS),
           (Heap.table_get s (Heap.COMPARISON_OPERATORS repr_finite fuel));
    try contradiction; [exact Hf|apply runs_to_exact; reflexivity].
Qed.

End HeapLoops.

Lemma runs_to_bind_exact {A B : Type} (h : Heap.heap)
    (m : Heap.M A) (o : outcome A) (k : A -> Heap.M B) (k' : A -> outcome B) :
  m h = (o, h) ->
  (forall a, o = Return a -> runs_to h (k a) (k' a)) ->
  runs_to h (Heap.bind m k) (bind o k').
Proof.
  intros E Hk. unfold runs_to, Heap.bind. rewrite E.
  destruct o as [a|e|]; simpl.
  - apply (Hk a eq_refl).
  - exists h. split; [reflexivity|apply unchanged_refl].
  - exists h. split; [reflexivity|apply unchanged_refl].
Qed.

Lemma runs_to_bind_value {A B : Type} (h : Heap.heap)
    (m : Heap.M A) (a : A) (k : A -> Heap.M B) (o : outcome B) :
  m h = (Return a, h) ->
  runs_to h (k a) o ->
  runs_to h (Heap.bind m k) o.
Proof. intros E Hk. unfold runs_to, Heap.bind. rewrite E. exact Hk. Qed.

(** The same for a reading whose result is a value of the heap, on one
    side, and the tree it stands for, on the other. *)
Lemma runs_to_bind_read {A A' B : Type} (h : Heap.heap)
    (m : Heap.M A) (o : outcome A') (k : A -> Heap.M B) (k' : A' -> outcome B) :
  o <> Undefined ->
  match o with
  | Return a' => exists a, m h = (Return a, h) /\ runs_to h (k a) (k' a')
  | Raise e => m h = (Raise e, h)
  | Undefined => True
  end ->
  runs_to h (Heap.bind m k) (bind o k').
Proof.
  intros Hdef H. unfold runs_to, Heap.bind.
  destruct o as [a'|e|]; simpl; [| |congruence].
  - destruct H as [a [E Hk]]. rewrite E. exact Hk.
  - rewrite H. exists h. split; [reflexivity|apply unchanged_refl].
Qed.

Lemma getitem_defined (t : pyval) (key : string) : getitem t key <> Undefined.
Proof.
  destruct t; simpl; try discriminate. destruct (dict_get key items); discriminate.
Qed.

Lemma iterate_defined (t : pyval) : iterate t <> Undefined.
Proof. destruct t; discriminate. Qed.

Lemma comprehension_heap (f : Heap.val -> Heap.M string) (g : pyval -> outcome string)
    (trees : list pyval) :
  forall items h,
    Forall2 (denotes h) items trees ->
    (forall h' v t,
        unchanged h h' -> In t trees -> denotes h' v t -> runs_to h' (f v) (g t)) ->
    runs_to h (Heap.comprehension f items) (comprehension g trees).
Proof.
  induction trees as [|x xs IH]; intros items h Hall Hf;
    inversion Hall as [|w ? ws ? Hwx Hrest]; subst.
  - apply runs_to_exact. reflexivity.
  - cbn [Heap.comprehension comprehension].
    apply runs_to_bind.
    + apply Hf; [apply unchanged_refl|left; reflexivity|exact Hwx].
    + intros y h1 _ U1. apply runs_to_bind.
      * apply IH; [exact (Forall2_denotes_unchanged _ _ _ _ U1 Hrest)|].
        intros h' v t U Hin Hd. apply Hf;
          [exact (unchanged_trans _ _ _ U1 U)|right; exact Hin|exact Hd].
      * intros ys h2 _ _. apply runs_to_exact. reflexivity.
Qed.

Section HeapRecursion.

Variable fuel : nat.

Lemma _parse_logical_condition_heap (h : Heap.heap) (v : Heap.val) (t : pyval)
    (recurse' : Heap.val -> Heap.M string) (recurse : pyval -> outcome string) :
  denotes h v t ->
  depth t <= fuel ->
  (forall h' v' t',
      unchanged h h' -> depth t' < depth t -> denotes h' v' t' ->
      runs_to h' (recurse' v') (recurse t')) ->
  runs_to h (Heap._parse_logical_condition fuel recurse' v)
    (_parse_logical_condition recurse t).
Proof.
  intros Hd Hfuel Hrec.
  assert (Hshow : forall B (k : pyval -> Heap.M B),
             Heap.bind (Heap.snapshot fuel v) k h = k t h)
    by (intros; rewrite (bind_exact _ _ _ _ (snapshot_denotes _ _ _ _ Hd Hfuel));
        reflexivity).
  unfold Heap._parse_logical_condition, _parse_logical_condition.
  apply runs_to_bind_exact; [apply contains_denotes, Hd|].
  intros [|] _; cbn [negb];
    [|apply runs_to_exact; rewrite Hshow; reflexivity].
  apply runs_to_bind_exact; [apply contains_denotes, Hd|].
  intros [|] _; cbn [negb];
    [|apply runs_to_exact; rewrite Hshow; reflexivity].
  apply runs_to_bind_read; [apply getitem_defined|].
  pose proof (getitem_denotes _ _ _ "operator" Hd) as Hop.
  destruct (getitem t "operator") as [operator|e|] eqn:Eop; [|exact Hop|exact I].
  destruct Hop as [operator' [Eop' Hdo]]. exists operator'. split; [exact Eop'|].
  apply runs_to_bind_read; [apply getitem_defined|].
  pose proof (getitem_denotes _ _ _ "conditions" Hd) as Hch.
  destruct (getitem t "conditions") as [children|e|] eqn:Ech; [|exact Hch|exact I].
  destruct Hch as [children' [Ech' Hdc]]. exists children'. split; [exact Ech'|].
  pose proof (getitem_depth _ _ _ Eop) as Hdepth_op.
  pose proof (getitem_depth _ _ _ Ech) as Hdepth_ch.
  assert (Hshow_op : forall B (k : pyval -> Heap.M B),
             Heap.bind (Heap.snapshot fuel operator') k h = k operator h)
    by (intros; rewrite (bind_exact _ _ (Return operator));
        [reflexivity|apply snapshot_denotes; [exact Hdo|lia]]).
  apply (runs_to_bind_value _ _ _ _ _ (truthy_denotes _ _ _ Hdc)).
  destruct (truthy children); cbn [negb];
    [|apply runs_to_exact; rewrite Hshow_op; reflexivity].
  apply runs_to_bind_read; [apply iterate_defined|].
  pose proof (iterate_denotes _ _ _ Hdc) as Hit.
  destruct (iterate children) as [trees|e|] eqn:Eit; [|exact Hit|exact I].
  destruct Hit as [items [Eit' Hall]]. exists items. split; [exact Eit'|].
  apply runs_to_bind.
  - apply comprehension_heap; [exact Hall|].
    intros h' w x U Hin Hdx. apply Hrec; [exact U| |exact Hdx].
    pose proof (depth_iterate _ _ _ Eit Hin). lia.
  - intros conditions h1 _ U1.
    rewrite (eq_str_denotes _ _ _ "AND" Hdo), (eq_str_denotes _ _ _ "OR" Hdo),
      (eq_str_denotes _ _ _ "NOT" Hdo).
    destruct (eq_str operator "AND"); [apply runs_to_exact; reflexivity|].
    destruct (eq_str operator "OR"); [apply runs_to_exact; reflexivity|].
    destruct (eq_str operator "NOT"); [apply runs_to_exact; reflexivity|].
    apply runs_to_exact.
    rewrite (bind_exact _ _ (Return operator)); [reflexivity|].
    apply snapshot_denotes; [exact (denotes_unchanged _ _ _ _ U1 Hdo)|lia].
Qed.

Lemma _parse_comparison_body_heap (h : Heap.heap) (v : Heap.val) (t : pyval)
    (recurse' : Heap.val -> Heap.M string) (recurse : pyval -> outcome string) :
  denotes h v t ->
  depth t <= fuel ->
  (forall h' v' t',
      unchanged h h' -> depth t' < depth t -> denotes h' v' t' ->
      runs_to h' (recurse' v') (recurse t')) ->
  runs_to h (Heap._parse_comparison_body repr_finite fuel recurse' v)
    (_parse_comparison_body recurse t).
Proof.
  intros Hd Hfuel Hrec.
  assert (Hshow : forall B (k : pyval -> Heap.M B),
             Heap.bind (Heap.snapshot fuel v) k h = k t h)
    by (intros; rewrite (bind_exact _ _ _ _ (snapshot_denotes _ _ _ _ Hd Hfuel));
        reflexivity).
  unfold Heap._parse_comparison_body, _parse_comparison_body.
  apply runs_to_bind_exact; [apply contains_denotes, Hd|].
  intros [|] _; cbn [negb];
    [|apply _parse_logical_condition_heap; assumption].
  apply runs_to_bind_read; [apply getitem_defined|].
  pose proof (getitem_denotes _ _ _ "field" Hd) as Hfi.
  destruct (getitem t "field") as [field|e|] eqn:Efi; [|exact Hfi|exact I].
  destruct Hfi as [field' [Efi' Hdf]]. exists field'. split; [exact Efi'|].
  rewrite (as_str_denotes _ _ _ Hdf).
  destruct (as_str field) as [name|]; [|apply runs_to_exact; reflexivity].
  apply runs_to_bind_exact; [apply contains_denotes, Hd|].
  intros [|] _; cbn [negb];
    [|apply runs_to_exact; rewrite Hshow; reflexivity].
  apply runs_to_bind_exact; [apply contains_denotes, Hd|].
  intros [|] _; cbn [negb];
    [|apply runs_to_exact; rewrite Hshow; reflexivity].
  apply runs_to_bind_read; [apply getitem_defined|].
  pose proof (getitem_denotes _ _ _ "operator" Hd) as Hop.
  destruct (getitem t "operator") as [operator|e|] eqn:Eop; [|exact Hop|exact I].
  destruct Hop as [operator' [Eop' Hdo]]. exists operator'. split; [exact Eop'|].
  apply runs_to_bind_read; [apply getitem_defined|].
  pose proof (getitem_denotes _ _ _ "value" Hd) as Hva.
  destruct (getitem t "value") as [value|e|] eqn:Eva; [|exact Hva|exact I].
  destruct Hva as [value' [Eva' Hdv]]. exists value'. split; [exact Eva'|].
  apply dispatch_heap; assumption.
Qed.

Lemma _parse_comparison_condition_heap (n : nat) :
  forall h v t,
    denotes h v t -> depth t < n -> depth t <= fuel ->
    runs_to h (Heap._parse_comparison_condition repr_finite fuel n v) (compile t).
Proof.
  induction n as [|n IH]; intros h v t Hd Hn Hfuel; [lia|].
  rewrite compile_unfold. cbn [Heap._parse_comparison_condition].
  apply _parse_comparison_body_heap; [exact Hd|exact Hfuel|].
  intros h' v' t' _ Hlt Hd'. apply IH; [exact Hd'|lia|lia].
Qed.

Lemma normalize_filters_heap (h : Heap.heap) (v : Heap.val) (t : pyval) :
  denotes h v t ->
  depth t < fuel ->
  runs_to h (Heap.normalize_filters repr_finite fuel v) (normalize_filters t).
Proof.
  intros Hd Hfuel. unfold Heap.normalize_filters, normalize_filters.
  apply (runs_to_bind_value _ _ _ _ _ (isinstance_dict_denotes _ _ _ Hd)).
  destruct (isinstance_dict t); cbn [negb]; [|apply runs_to_exact; reflexivity].
  apply runs_to_bind_exact; [apply contains_denotes, Hd|].
  intros [|] _.
  - apply _parse_comparison_condition_heap; [exact Hd|lia|lia].
  - apply _parse_logical_condition_heap; [exact Hd|lia|].
    intros h' v' t' _ Hlt Hd'.
    apply _parse_comparison_condition_heap; [exact Hd'|lia|lia].
Qed.

End HeapRecursion.

(** ** The claims *)

(** C1, where the code departs from it.  An infinite or not-a-number
    float is refused wherever a scalar is rendered, but inside the list
    of [in] and [not in] it is written out as [inf], [-inf] or [nan]. *)
Theorem C1_non_finite_float_in_list :
  normalize_filters
    (PDict [("field", PStr "meta.v"); ("operator", PStr "in");
            ("value", PList [PFloat (S754_infinity false)])])
  = Return "v in (inf)" /\
  normalize_filters
    (PDict [("field", PStr "meta.v"); ("operator", PStr "in");
            ("value", PList [PInt 1; PFloat S754_nan])])
  = Return "v in (1, nan)" /\
  normalize_filters
    (PDict [("field", PStr "meta.v"); ("operator", PStr "not in");
            ("value", PList [PFloat (S754_infinity true)])])
  = Return "!(v in (-inf))" /\
  (forall negative,
     _format_value (PFloat (S754_infinity negative)) =
       Raise (FilterError (MsgValueNotSupported (PFloat (S754_infinity negative)))) /\
     _in_element (PFloat (S754_infinity negative)) =
       Return (if negative then "-inf" else "inf")) /\
  _format_value (PFloat S754_nan) =
    Raise (FilterError (MsgValueNotSupported (PFloat S754_nan))) /\
  _in_element (PFloat S754_nan) = Return "nan".
Proof.
  split; [reflexivity|]. split; [reflexivity|]. split; [reflexivity|].
  split; [|split; reflexivity].
  intros [|]; split; reflexivity.
Qed.

(** C2, as the code has it.  A filter that is not a dictionary raises
    the [FilterError] of the entry point.  A filter whose nodes are all
    dictionaries holding a string under [field] and under [operator]
    and a list of such nodes under [conditions], and that stays within
    the two limits of the interpreter, returns a text or raises a
    [FilterError], no other exception; and its compilation stops at the
    first child that raises, whose exception is the outcome, no text
    being returned.  The limits are those of the interpreter that runs
    the call: [max_str_digits] is its bound on the digits of the text
    of an integer, which no integer of the filter exceeds, and
    [max_depth] is a depth of nesting that its recursion limit lets the
    call go down to, which the filter does not exceed.  Past them the
    interpreter raises [ValueError] and [RecursionError]. *)
Theorem C2_filter_error_on_typed_filters
    (max_str_digits max_depth : nat) (filters : pyval) :
  (isinstance_dict filters = false ->
   normalize_filters filters = Raise (FilterError MsgMustBeDict)) /\
  (well_typed filters = true ->
   ints_within max_str_digits filters = true ->
   depth filters <= max_depth ->
   ((exists out, normalize_filters filters = Return out) \/
    (exists msg, normalize_filters filters = Raise (FilterError msg))) /\
   (forall d operator before child after done e,
      filters = PDict d ->
      dict_get "field" d = None ->
      dict_get "operator" d = Some operator ->
      dict_get "conditions" d = Some (PList (before ++ child :: after)%list) ->
      comprehension compile before = Return done ->
      compile child = Raise e ->
      normalize_filters filters = Raise e)).
Proof.
  split.
  - intros H. destruct filters; try discriminate; reflexivity.
  - intros H _ _. split.
    + assert (R : raises_only is_filter_error (normalize_filters filters)).
      { destruct filters; try discriminate. rewrite normalize_filters_dict.
        apply (compile_well_typed (S (depth (PDict items)))); [lia|exact H]. }
      destruct (normalize_filters filters) as [out|[msg| | |]|]; simpl in R;
        try contradiction.
      * left. exists out. reflexivity.
      * right. exists msg. reflexivity.
    + intros d operator before child after done e -> Hf Ho Hc Hb He.
      rewrite (logical_node _ _ _ Hf Ho Hc).
      assert (Ht : negb (truthy (PList (before ++ child :: after)%list)) = false)
        by (destruct before; reflexivity).
      rewrite Ht. cbn [iterate bind].
      rewrite (comprehension_raise _ _ _ _ _ _ Hb He). reflexivity.
Qed.

(** C3. Strings are rendered under two escaping regimes.  In the
    double-quoted fragments (equality, inequality, and the rendering of
    a scalar) the two replacements of [_escape_yql_string] amount to
    escaping every backslash and every double quote of the value once,
    and reading the escapes back gives the value again; in the
    single-quoted elements of an [in] list every backslash and every
    single quote is escaped once, and a double quote is left as it is. *)
Theorem C3_two_escaping_regimes (s : string) :
  _escape_yql_string s = escape_each DQUOTE s /\
  unescape (_escape_yql_string s) = s /\
  (forall field,
      _equal field (PStr s) =
        Return (field ++ " contains " ++ chr DQUOTE ++ escape_each DQUOTE s ++ chr DQUOTE) /\
      _not_equal field (PStr s) =
        Return ("!(" ++ field ++ " contains " ++ chr DQUOTE
                     ++ escape_each DQUOTE s ++ chr DQUOTE ++ ")")) /\
  _format_value (PStr s) = Return (chr DQUOTE ++ escape_each DQUOTE s ++ chr DQUOTE) /\
  _in_element (PStr s) = Return (chr SQUOTE ++ escape_each SQUOTE s ++ chr SQUOTE) /\
  unescape (escape_each SQUOTE s) = s /\
  escape_char SQUOTE DQUOTE = chr DQUOTE /\
  escape_char DQUOTE DQUOTE = chr BACKSLASH ++ chr DQUOTE /\
  escape_char SQUOTE SQUOTE = chr BACKSLASH ++ chr SQUOTE /\
  (forall quote, escape_char quote BACKSLASH = chr BACKSLASH ++ chr BACKSLASH).
Proof.
  assert (Hd : _escape_yql_string s = escape_each DQUOTE s)
    by (apply replace_twice; discriminate).
  split; [exact Hd|].
  split; [rewrite Hd; apply unescape_escape_each|].
  split; [intros field; unfold _equal, _not_equal; simpl; rewrite Hd; split; reflexivity|].
  split; [unfold _format_value; simpl; rewrite Hd; reflexivity|].
  split; [unfold _in_element; simpl; rewrite replace_twice by discriminate; reflexivity|].
  split; [apply unescape_escape_each|].
  repeat split.
Qed.



(** C6. The field name of a comparison node loses the prefix [meta.],
    its first five characters, exactly when it starts with it; what
    follows the prefix is emitted as it is, also when it starts with
    [meta.] again; a name that does not start with [meta.] is emitted
    unchanged, wherever else [meta.] occurs in it. *)
Theorem C6_meta_prefix
    (d : list (string * pyval)) (field : string) (operator value : pyval) :
  dict_get "field" d = Some (PStr field) ->
  dict_get "operator" d = Some operator ->
  dict_get "value" d = Some value ->
  (startswith field "meta." = true <-> exists rest, field = "meta." ++ rest) /\
  (forall rest, field = "meta." ++ rest ->
     normalize_filters (PDict d) = dispatch operator rest value) /\
  (startswith field "meta." = false ->
     normalize_filters (PDict d) = dispatch operator field value).
Proof.
  intros Hf Ho Hv. split; [apply startswith_meta|]. split.
  - intros rest ->. rewrite (comparison_node _ _ _ _ Hf Ho Hv).
    rewrite emitted_field_meta. reflexivity.
  - intros Hn. rewrite (comparison_node _ _ _ _ Hf Ho Hv).
    rewrite (emitted_field_other _ Hn). reflexivity.
Qed.


(** C8. A boolean is rendered as [true] or [false], as a scalar and as
    an element of an [in] or [not in] list alike.  It is an instance of
    [int], whose text would be [True] or [False]; the test for [bool]
    comes first, so that text, and [1] and [0], are never what is
    emitted for it. *)
Theorem C8_boolean_literals (b : bool) :
  _format_value (PBool b) = Return (yql_bool b) /\
  _in_element (PBool b) = Return (yql_bool b) /\
  (forall field items out,
     _in field (PList items) = Return out ->
     exists fragments,
       out = field ++ " in (" ++ join ", " fragments ++ ")" /\
       _not_in field (PList items) = Return ("!(" ++ out ++ ")") /\
       length fragments = length items /\
       forall i, nth_error items i = Some (PBool b) ->
                 nth_error fragments i = Some (yql_bool b)) /\
  as_number (PBool b) = Some (NBool b) /\
  str (NBool b) = (if b then "True" else "False") /\
  yql_bool b <> str (NBool b) /\
  yql_bool b <> str (NInt (if b then 1 else 0)%Z).
Proof.
  split; [reflexivity|]. split; [reflexivity|]. split.
  - intros field items out H.
    destruct items as [|a l]; [discriminate|].
    assert (E : _in field (PList (a :: l)) =
                (formatted_values <- comprehension _in_element (a :: l) ;;
                 Return (field ++ " in (" ++ join ", " formatted_values ++ ")")))
      by reflexivity.
    unfold _not_in. cbn [isinstance_list negb]. rewrite E in *. clear E.
    destruct (comprehension _in_element (a :: l)) as [fs| |] eqn:Ec;
      cbn [bind] in *; try discriminate.
    injection H as <-. exists fs.
    split; [reflexivity|]. split; [reflexivity|].
    split; [exact (comprehension_length _ _ _ Ec)|].
    intros i Hi. destruct (comprehension_nth _ _ _ _ _ Ec Hi) as [y [Hy Hr]].
    rewrite Hy. injection Hr as <-. reflexivity.
  - split; [reflexivity|]. split; [reflexivity|].
    split; destruct b; discriminate.
Qed.

(** C9. [normalize_filters] is a pure function.  Run on a value of a
    heap that stands for a filter tree, with fuel above the depth of
    the tree, the compiler over the heap ends with the outcome the
    compiler over trees computes from the tree alone: the same text or
    the same exception for the same tree, whatever the heap and the
    addresses.  It leaves every object the heap had as it was, whether
    it returns or raises, so the value stands for the same tree after
    the call, and a second call has the outcome of the first. *)
Theorem C9_pure_function
    (h : Heap.heap) (filters : Heap.val) (tree : pyval) (fuel : nat) :
  denotes h filters tree ->
  depth tree < fuel ->
  normalize_filters tree <> Undefined /\
  exists h',
    Heap.normalize_filters repr_finite fuel filters h = (normalize_filters tree, h') /\
    unchanged h h' /\
    denotes h' filters tree /\
    exists h'',
      Heap.normalize_filters repr_finite fuel filters h' = (normalize_filters tree, h'') /\
      unchanged h' h''.
Proof.
  intros Hd Hfuel. split.
  - pose proof (normalize_filters_total tree) as T.
    intros Eu. rewrite Eu in T. exact T.
  - destruct (normalize_filters_heap fuel h filters tree Hd Hfuel) as [h' [E U]].
    pose proof (denotes_unchanged _ _ _ _ U Hd) as Hd'.
    exists h'. split; [exact E|]. split; [exact U|]. split; [exact Hd'|].
    exact (normalize_filters_heap fuel h' filters tree Hd' Hfuel).
Qed.

(** C10. A comparison node with a range operator and a boolean value
    compiles to [field <op> true] or [field <op> false]: the validation
    of a range value refuses [None] and lists only, every other value
    goes on to the rendering. *)
Theorem C10_range_operator_on_boolean
    (d : list (string * pyval)) (field op : string) (b : bool) :
  dict_get "field" d = Some (PStr field) ->
  dict_get "operator" d = Some (PStr op) ->
  dict_get "value" d = Some (PBool b) ->
  In op [">"; ">="; "<"; "<="] ->
  normalize_filters (PDict d) =
    Return (emitted_field field ++ " " ++ op ++ " " ++ yql_bool b) /\
  (forall value,
     value <> PNone -> isinstance_list value = false ->
     _validate_range_value value = Return tt /\
     dispatch (PStr op) (emitted_field field) value =
       (rendered <- _format_value value ;;
        Return (emitted_field field ++ " " ++ op ++ " " ++ rendered))).
Proof.
  intros Hf Ho Hv Hop. rewrite (comparison_node _ _ _ _ Hf Ho Hv).
  generalize (emitted_field field). intros name.
  assert (E : forall value, dispatch (PStr op) name value =
              (_ <- _validate_range_value value ;;
               v <- _format_value value ;;
               Return (name ++ " " ++ op ++ " " ++ v)))
    by (intros value; destruct Hop as [<-|[<-|[<-|[<-|[]]]]]; reflexivity).
  split.
  - rewrite E. reflexivity.
  - intros value Hn Hl.
    assert (Hval : _validate_range_value value = Return tt)
      by (destruct value; try reflexivity; [congruence|discriminate]).
    split; [exact Hval|]. rewrite E, Hval. reflexivity.
Qed.

(** ** Further properties of the module *)

Lemma dict_mem_none (key : string) (d : list (string * pyval)) :
  dict_get key d = None -> dict_mem key d = false.
Proof. unfold dict_mem. intros ->. reflexivity. Qed.



(** X2. A comparison node is read through its keys [field], [operator]
    and [value] only, and a logical node through [operator] and
    [conditions] only: two dictionaries that hold the same objects
    under these keys compile alike, whatever else they hold and in
    whatever order. *)
Theorem X2_only_the_keys_count (d d' : list (string * pyval)) :
  (forall field operator value,
     dict_get "field" d = Some (PStr field) ->
     dict_get "field" d' = Some (PStr field) ->
     dict_get "operator" d = Some operator ->
     dict_get "operator" d' = Some operator ->
     dict_get "value" d = Some value ->
     dict_get "value" d' = Some value ->
     normalize_filters (PDict d) = normalize_filters (PDict d')) /\
  (forall operator children,
     dict_get "field" d = None ->
     dict_get "field" d' = None ->
     dict_get "operator" d = Some operator ->
     dict_get "operator" d' = Some operator ->
     dict_get "conditions" d = Some children ->
     dict_get "conditions" d' = Some children ->
     normalize_filters (PDict d) = normalize_filters (PDict d')).
Proof.
  split.
  - intros field operator value Hf Hf' Ho Ho' Hv Hv'.
    rewrite (comparison_node _ _ _ _ Hf Ho Hv), (comparison_node _ _ _ _ Hf' Ho' Hv').
    reflexivity.
  - intros operator children Hf Hf' Ho Ho' Hc Hc'.
    rewrite (logical_node _ _ _ Hf Ho Hc), (logical_node _ _ _ Hf' Ho' Hc').
    reflexivity.
Qed.


(** X4. A comparison node whose field name is not a string raises the
    [AttributeError] of [field.startswith], whether or not it holds an
    operator and a value: the name is looked at before the two keys are
    asked for. *)
Theorem X4_field_not_a_string (d : list (string * pyval)) (field : pyval) :
  dict_get "field" d = Some field ->
  isinstance_str field = false ->
  normalize_filters (PDict d) = Raise AttributeError.
Proof.
  intros Hf Hs. rewrite normalize_filters_dict, compile_unfold.
  unfold _parse_comparison_body. simpl.
  rewrite (dict_mem_get _ _ _ Hf), Hf. simpl.
  destruct field; try discriminate; reflexivity.
Qed.

(** X5. A field name and the same name with [meta.] in front give the
    same outcome, provided the name itself does not start with
    [meta.]. *)
Theorem X5_prefixed_and_plain_names_agree
    (d d' : list (string * pyval)) (name : string) (operator value : pyval) :
  startswith name "meta." = false ->
  dict_get "field" d = Some (PStr ("meta." ++ name)) ->
  dict_get "field" d' = Some (PStr name) ->
  dict_get "operator" d = Some operator ->
  dict_get "operator" d' = Some operator ->
  dict_get "value" d = Some value ->
  dict_get "value" d' = Some value ->
  normalize_filters (PDict d) = normalize_filters (PDict d').
Proof.
  intros Hn Hf Hf' Ho Ho' Hv Hv'.
  rewrite (comparison_node _ _ _ _ Hf Ho Hv), (comparison_node _ _ _ _ Hf' Ho' Hv').
  rewrite emitted_field_meta, (emitted_field_other _ Hn). reflexivity.
Qed.

Lemma _not_equal_wraps (field : string) (value : pyval) :
  _not_equal field value = (inner <- _equal field value ;; Return ("!(" ++ inner ++ ")")).
Proof.
  unfold _not_equal, _equal.
  destruct (_format_value value); destruct value; simpl; try reflexivity;
    rewrite append_assoc; simpl; rewrite ?append_assoc; reflexivity.
Qed.

Lemma _not_in_wraps (field : string) (value : pyval) :
  _not_in field value = (inner <- _in field value ;; Return ("!(" ++ inner ++ ")")).
Proof.
  unfold _not_in. destruct value; reflexivity.
Qed.

(** X6. The two negated operators are the positive ones inside [!(]
    and [)]: a node under [!=] compiles to the text of the same node
    under [==], wrapped, and raises what that one raises; likewise
    [not in] and [in]. *)
Theorem X6_negated_operators
    (d d' : list (string * pyval)) (field : string) (value : pyval) :
  dict_get "field" d = Some (PStr field) ->
  dict_get "field" d' = Some (PStr field) ->
  dict_get "value" d = Some value ->
  dict_get "value" d' = Some value ->
  (dict_get "operator" d = Some (PStr "==") ->
   dict_get "operator" d' = Some (PStr "!=") ->
   normalize_filters (PDict d') =
     (inner <- normalize_filters (PDict d) ;; Return ("!(" ++ inner ++ ")"))) /\
  (dict_get "operator" d = Some (PStr "in") ->
   dict_get "operator" d' = Some (PStr "not in") ->
   normalize_filters (PDict d') =
     (inner <- normalize_filters (PDict d) ;; Return ("!(" ++ inner ++ ")"))).
Proof.
  intros Hf Hf' Hv Hv'. split; intros Ho Ho';
    rewrite (comparison_node _ _ _ _ Hf Ho Hv), (comparison_node _ _ _ _ Hf' Ho' Hv').
  - apply _not_equal_wraps.
  - apply _not_in_wraps.
Qed.


(** A dictionary, case by case on what it holds under the keys. *)
Lemma normalize_filters_cases (d : list (string * pyval)) :
  normalize_filters (PDict d) =
    match dict_get "field" d with
    | Some field =>
        match as_str field with
        | None => Raise AttributeError
        | Some name =>
            match dict_get "operator" d with
            | None => Raise (FilterError (MsgKeyMissing "operator" (PDict d)))
            | Some operator =>
                match dict_get "value" d with
                | None => Raise (FilterError (MsgKeyMissing "value" (PDict d)))
                | Some value => dispatch operator (emitted_field name) value
                end
            end
        end
    | None =>
        match dict_get "operator" d with
        | None => Raise (FilterError (MsgKeyMissing "operator" (PDict d)))
        | Some operator =>
            match dict_get "conditions" d with
            | None => Raise (FilterError (MsgKeyMissing "conditions" (PDict d)))
            | Some children =>
                if negb (truthy children)
                then Raise (FilterError (MsgNeedsCondition operator))
                else
                  items <- iterate children ;;
                  conditions <- comprehension compile items ;;
                  if eq_str operator "AND"
                  then Return ("(" ++ join " and " conditions ++ ")")
                  else if eq_str operator "OR"
                  then Return ("(" ++ join " or " conditions ++ ")")
                  else if eq_str operator "NOT"
                  then Return ("!(" ++ join " and " conditions ++ ")")
                  else Raise (FilterError (MsgUnknownLogical operator))
            end
        end
    end.
Proof.
  destruct (dict_get "field" d) as [field|] eqn:Hf.
  - rewrite normalize_filters_dict, compile_unfold.
    unfold _parse_comparison_body. simpl.
    rewrite (dict_mem_get _ _ _ Hf), Hf. simpl.
    destruct (as_str field) as [name|]; [|reflexivity].
    unfold dict_mem.
    destruct (dict_get "operator" d) as [operator|]; [|reflexivity].
    destruct (dict_get "value" d) as [value|]; reflexivity.
  - destruct (dict_get "operator" d) as [operator|] eqn:Ho.
    + destruct (dict_get "conditions" d) as [children|] eqn:Hc.
      * apply logical_node; assumption.
      * rewrite normalize_filters_dict, compile_logical
          by (simpl; rewrite (dict_mem_none _ _ Hf); reflexivity).
        unfold _parse_logical_condition. simpl.
        rewrite (dict_mem_get _ _ _ Ho), (dict_mem_none _ _ Hc). reflexivity.
    + rewrite normalize_filters_dict, compile_logical
        by (simpl; rewrite (dict_mem_none _ _ Hf); reflexivity).
      unfold _parse_logical_condition. simpl.
      rewrite (dict_mem_none _ _ Ho). reflexivity.
Qed.

(** ** What the formatters raise and when they return *)






Lemma comprehension_listable (items : list pyval) :
  forallb listable items = true ->
  exists fragments, comprehension _in_element items = Return fragments.
Proof.
  induction items as [|x l IH]; simpl; intros H; [eauto|].
  apply andb_true_iff in H. destruct H as [Hx Hl].
  destruct (IH Hl) as [fs E]. rewrite E.
  destruct x; try discriminate; simpl; eauto.
Qed.

(** X9. Take an [in] list that is not empty, whose integers have no
    more digits than [max_str_digits], the bound of the interpreter on
    the text of an integer, and that holds no infinite and no
    not-a-number float.  It compiles exactly when all its elements are
    strings, booleans or numbers; the first element that is none of
    these, [None], a list or a dictionary, raises the [FilterError] of
    an unsupported type, with its type, whatever follows it. *)
Theorem X9_elements_of_an_in_list
    (max_str_digits : nat) (field : string) (items : list pyval) :
  items <> [] ->
  ints_within max_str_digits (PList items) = true ->
  lists_finite (PList items) = true ->
  ((exists out, _in field (PList items) = Return out)
   <-> forallb listable items = true) /\
  (forall before x after,
     items = (before ++ x :: after)%list ->
     forallb listable before = true ->
     listable x = false ->
     _in field (PList items) = Raise (FilterError (MsgUnsupportedInType (type_of x))) /\
     _not_in field (PList items) = Raise (FilterError (MsgUnsupportedInType (type_of x)))).
Proof.
  intros Hne Hdigits Hfinite.
  assert (E : _in field (PList items) =
              (formatted_values <- comprehension _in_element items ;;
               Return (field ++ " in (" ++ join ", " formatted_values ++ ")")))
    by (destruct items; [contradiction|reflexivity]).
  assert (Hfirst : forall before x after,
             items = (before ++ x :: after)%list ->
             forallb listable before = true ->
             listable x = false ->
             comprehension _in_element items =
               Raise (FilterError (MsgUnsupportedInType (type_of x)))).
  { intros before x after -> Hb Hx.
    destruct (comprehension_listable _ Hb) as [done Hd].
    apply (comprehension_raise _ _ _ _ _ _ Hd).
    destruct x; try discriminate; reflexivity. }
  split.
  - split.
    + intros [out H]. rewrite E in H.
      destruct (forallb listable items) eqn:Hall; [reflexivity|exfalso].
      assert (Hsplit : exists before x after,
                 items = (before ++ x :: after)%list /\
                 forallb listable before = true /\ listable x = false).
      { clear - Hall. induction items as [|a l IH]; simpl in Hall; [discriminate|].
        destruct (listable a) eqn:Ha.
        - destruct (IH Hall) as [b [x [af [-> [Hb Hx]]]]].
          exists (a :: b), x, af. simpl. rewrite Ha, Hb. auto.
        - exists [], a, l. auto. }
      destruct Hsplit as [before [x [after [Hi [Hb Hx]]]]].
      rewrite (Hfirst _ _ _ Hi Hb Hx) in H. discriminate.
    + intros H. rewrite E. destruct (comprehension_listable _ H) as [fs ->].
      eexists. reflexivity.
  - intros before x after Hi Hb Hx.
    rewrite _not_in_wraps, E, (Hfirst _ _ _ Hi Hb Hx). split; reflexivity.
Qed.

Lemma compile_not_a_container (child : pyval) :
  child = PNone \/ as_number child <> None ->
  compile child = Raise TypeError.
Proof.
  intros H. rewrite compile_unfold.
  destruct H as [->|H]; [reflexivity|].
  destruct child; simpl in H; try congruence; reflexivity.
Qed.

(** X10. A child of a logical node that is [None] or a number raises
    the [TypeError] of ["field" not in child], once the children before
    it are compiled: this is the exception of the whole call, whatever
    the operator is and whatever follows the child. *)
Theorem X10_child_that_is_no_container
    (d : list (string * pyval)) (operator : pyval)
    (before : list pyval) (child : pyval) (after : list pyval) (done : list string) :
  dict_get "field" d = None ->
  dict_get "operator" d = Some operator ->
  dict_get "conditions" d = Some (PList (before ++ child :: after)%list) ->
  comprehension compile before = Return done ->
  child = PNone \/ as_number child <> None ->
  normalize_filters (PDict d) = Raise TypeError.
Proof.
  intros Hf Ho Hc Hb Hchild. rewrite (logical_node _ _ _ Hf Ho Hc).
  assert (Ht : negb (truthy (PList (before ++ child :: after)%list)) = false)
    by (destruct before; reflexivity).
  rewrite Ht. cbn [iterate bind].
  rewrite (comprehension_raise _ _ _ _ _ _ Hb (compile_not_a_container _ Hchild)).
  reflexivity.
Qed.

Lemma is_substring_one_char (pat : string) (c : ascii) :
  2 <= String.length pat -> is_substring pat (chr c) = false.
Proof.
  destruct pat as [|p1 [|p2 pat]]; simpl; try lia. intros _.
  unfold is_substring, chr. cbn [String.index String.prefix].
  destruct (ascii_dec p1 c); reflexivity.
Qed.

(** X11. A string given as the conditions of a logical node is gone
    through character by character, and the first character, which
    holds no key, is reported as a node without operator: the outcome
    is a [FilterError], never a text. *)
Theorem X11_conditions_given_as_a_string
    (d : list (string * pyval)) (operator : pyval) (c : ascii) (rest : string) :
  dict_get "field" d = None ->
  dict_get "operator" d = Some operator ->
  dict_get "conditions" d = Some (PStr (String c rest)) ->
  normalize_filters (PDict d)
    = Raise (FilterError (MsgKeyMissing "operator" (PStr (chr c)))).
Proof.
  intros Hf Ho Hc. rewrite (logical_node _ _ _ Hf Ho Hc).
  cbn [truthy negb iterate bind chars comprehension].
  rewrite compile_unfold. unfold _parse_comparison_body, _parse_logical_condition.
  cbn [contains bind].
  rewrite (is_substring_one_char "field" c) by (simpl; lia). cbn [negb bind].
  rewrite (is_substring_one_char "operator" c) by (simpl; lia). reflexivity.
Qed.

Lemma closes_early_escape_each (quote : ascii) (s : string) :
  quote <> BACKSLASH ->
  closes_early quote false (escape_each quote s) = false.
Proof.
  intros Hq. induction s as [|c s IH]; [reflexivity|].
  cbn [escape_each]. unfold escape_char.
  destruct (Ascii.eqb_spec c BACKSLASH) as [->|Hc].
  - cbn [chr append closes_early]. rewrite Ascii.eqb_refl. exact IH.
  - destruct (Ascii.eqb c quote) eqn:Ecq.
    + cbn [chr append closes_early]. rewrite Ascii.eqb_refl. exact IH.
    + cbn [chr append closes_early].
      destruct (Ascii.eqb_spec c BACKSLASH) as [E|_]; [contradiction|].
      rewrite Ecq. exact IH.
Qed.

(** X12. A value cannot end the literal it is written in.  Read from
    left to right, as the target language reads it, the text that
    [_escape_yql_string] puts between double quotes holds no double
    quote that a backslash does not announce and does not end on a
    backslash that would take the closing quote; the same holds, with
    the single quote, for the text an [in] list puts between single
    quotes.  A quote or a backslash left as it is would do just that. *)
Theorem X12_a_value_stays_inside_its_quotes (s : string) :
  closes_early DQUOTE false (_escape_yql_string s) = false /\
  (exists body,
     _in_element (PStr s) = Return (chr SQUOTE ++ body ++ chr SQUOTE) /\
     closes_early SQUOTE false body = false) /\
  (forall quote, closes_early quote false (chr quote) = true) /\
  (forall quote, closes_early quote false (chr BACKSLASH) = true).
Proof.
  split; [|split; [|split]].
  - unfold _escape_yql_string. rewrite replace_twice by discriminate.
    apply closes_early_escape_each. discriminate.
  - exists (escape_each SQUOTE s). split.
    + unfold _in_element. cbn [as_str].
      rewrite replace_twice by discriminate. reflexivity.
    + apply closes_early_escape_each. discriminate.
  - intros quote. cbn [chr closes_early]. rewrite Ascii.eqb_refl.
    destruct (Ascii.eqb quote BACKSLASH); reflexivity.
  - intros quote. reflexivity.
Qed.

Lemma append_inv_tail (c a b : string) : a ++ c = b ++ c -> a = b.
Proof.
  revert b. induction a as [|x a IH]; intros b H.
  - destruct b as [|y b]; [reflexivity|exfalso].
    apply (f_equal String.length) in H. simpl in H.
    rewrite length_append in H. lia.
  - destruct b as [|y b].
    + exfalso. apply (f_equal String.length) in H. simpl in H.
      rewrite length_append in H. lia.
    + simpl in H. injection H as -> H. f_equal. apply IH. exact H.
Qed.

Lemma append_inv_head (c a b : string) : c ++ a = c ++ b -> a = b.
Proof.
  induction c as [|x c IH]; simpl; intros H; [exact H|].
  injection H as H. apply IH. exact H.
Qed.

Lemma escape_each_injective (quote : ascii) (s1 s2 : string) :
  escape_each quote s1 = escape_each quote s2 -> s1 = s2.
Proof.
  intros H. rewrite <- (unescape_escape_each quote s1), <- (unescape_escape_each quote s2).
  rewrite H. reflexivity.
Qed.

(** X13. Escaping loses nothing: two strings that are escaped to the
    same text are the same string, so different values give different
    fragments under [==], and different elements of an [in] list give
    different literals. *)
Theorem X13_escaping_is_injective (s1 s2 : string) :
  (_escape_yql_string s1 = _escape_yql_string s2 -> s1 = s2) /\
  (forall field, _equal field (PStr s1) = _equal field (PStr s2) -> s1 = s2) /\
  (_in_element (PStr s1) = _in_element (PStr s2) -> s1 = s2).
Proof.
  assert (Hd : forall s, _escape_yql_string s = escape_each DQUOTE s)
    by (intros; apply replace_twice; discriminate).
  split; [|split].
  - rewrite !Hd. apply escape_each_injective.
  - intros field H. unfold _equal in H. cbn [as_str] in H. injection H as H.
    apply append_inv_head in H.
    apply (append_inv_head " contains ") in H.
    apply (append_inv_head (chr DQUOTE)) in H.
    apply append_inv_tail in H. rewrite !Hd in H.
    exact (escape_each_injective _ _ _ H).
  - unfold _in_element. cbn [as_str]. rewrite !replace_twice by discriminate.
    intros H. injection H as H.
    apply append_inv_tail in H.
    exact (escape_each_injective _ _ _ H).
Qed.

(** X14. The recursion goes as deep as the filter is nested and no
    deeper: with any fuel above the depth of a node the fuel-indexed
    function ends, with a text or an exception, and the outcome is the
    same for all such fuels; for a dictionary it is the outcome of the
    entry point. *)
Theorem X14_recursion_bounded_by_depth (n : nat) (condition : pyval) :
  depth condition < n ->
  _parse_comparison_condition n condition <> Undefined /\
  _parse_comparison_condition n condition
    = _parse_comparison_condition (S (depth condition)) condition /\
  (isinstance_dict condition = true ->
   _parse_comparison_condition n condition = normalize_filters condition).
Proof.
  intros Hn. split; [|split].
  - pose proof (_parse_comparison_condition_total n condition Hn) as T.
    intros E. rewrite E in T. exact T.
  - apply fuel_irrelevant; lia.
  - destruct condition; try discriminate. intros _.
    rewrite normalize_filters_dict. apply fuel_irrelevant; lia.
Qed.

(** ** The filters that compile *)

Lemma compile_returns_dict (c : pyval) (out : string) :
  compile c = Return out -> isinstance_dict c = true.
Proof.
  rewrite compile_unfold. unfold _parse_comparison_body, _parse_logical_condition.
  destruct c as [ | | | |s|l| ]; cbn [contains bind]; try discriminate;
    try reflexivity.
  - destruct (is_substring "field" s); cbn [negb getitem bind]; try discriminate.
    destruct (is_substring "operator" s); cbn [negb bind]; try discriminate.
    destruct (is_substring "conditions" s); cbn [negb getitem bind]; discriminate.
  - destruct (existsb (fun x => eq_str x "field") l); cbn [negb getitem bind];
      try discriminate.
    destruct (existsb (fun x => eq_str x "operator") l); cbn [negb bind];
      try discriminate.
    destruct (existsb (fun x => eq_str x "conditions") l); cbn [negb getitem bind];
      discriminate.
Qed.

Lemma comprehension_return_iff {A B : Type} (f : A -> outcome B) (l : list A) :
  (exists ys, comprehension f l = Return ys) <->
  (forall x, In x l -> exists y, f x = Return y).
Proof.
  induction l as [|a l IH]; simpl.
  - split; [intros _ x []|eauto].
  - split.
    + intros [ys H] x Hx.
      destruct (f a) as [y| |] eqn:Ea; simpl in H; try discriminate.
      destruct (comprehension f l) as [ys'| |]; simpl in H; try discriminate.
      destruct Hx as [<-|Hx]; [eauto|]. apply IH; eauto.
    + intros H. destruct (H a (or_introl eq_refl)) as [y ->].
      destruct (proj2 IH (fun x Hx => H x (or_intror Hx))) as [ys ->].
      simpl. eauto.
Qed.

Lemma _format_value_returns (value : pyval) :
  (exists out, _format_value value = Return out) <-> renders value = true.
Proof.
  destruct value as [ |b|z|f|s|l|d].
  - split; [intros [out H]; discriminate|discriminate].
  - split; [reflexivity|intros _; eexists; reflexivity].
  - split; [reflexivity|intros _; eexists; reflexivity].
  - destruct f as [s|s| |s m e]; simpl;
      try (split; [intros [out H]; discriminate|discriminate]);
      (split; [reflexivity|intros _; eexists; reflexivity]).
  - split; [reflexivity|intros _; eexists; reflexivity].
  - split; [intros [out H]; discriminate|discriminate].
  - split; [intros [out H]; discriminate|discriminate].
Qed.

Lemma returns_bind {A B : Type} (m : outcome A) (k : A -> B) :
  (exists out, (x <- m ;; Return (k x)) = Return out) <-> (exists a, m = Return a).
Proof.
  destruct m; simpl; split; intros [x H]; try discriminate; eauto.
Qed.

Lemma _equal_returns (field : string) (value : pyval) :
  (exists out, _equal field value = Return out) <-> renders value = true.
Proof.
  unfold _equal. destruct value; cbn [as_str];
    try (rewrite returns_bind; apply _format_value_returns).
  - split; [intros [out H]; discriminate|discriminate].
  - split; [reflexivity|intros _; eexists; reflexivity].
Qed.

Lemma _not_equal_returns (field : string) (value : pyval) :
  (exists out, _not_equal field value = Return out) <-> renders value = true.
Proof.
  rewrite _not_equal_wraps, returns_bind. apply _equal_returns.
Qed.

Lemma range_returns (value : pyval) (k : string -> string) :
  (exists out,
     (_ <- _validate_range_value value ;;
      v <- _format_value value ;; Return (k v)) = Return out)
  <-> renders value = true.
Proof.
  destruct value; cbn [_validate_range_value isinstance_list bind];
    try (rewrite returns_bind; apply _format_value_returns);
    split; try discriminate; intros [out H]; discriminate.
Qed.

Lemma _in_element_returns (x : pyval) :
  (exists y, _in_element x = Return y) <-> listable x = true.
Proof.
  destruct x; simpl;
    (split; [intros [y H]; try discriminate; reflexivity
            |intros H; try discriminate; eexists; reflexivity]).
Qed.

Lemma _in_returns (field : string) (value : pyval) :
  (exists out, _in field value = Return out) <->
  match value with
  | PList (x :: rest) => forallb listable (x :: rest)
  | _ => false
  end = true.
Proof.
  destruct value as [ | | | | |l| ];
    try (split; [intros [out H]; discriminate|discriminate]).
  destruct l as [|x rest]; [split; [intros [out H]; discriminate|discriminate]|].
  change (_in field (PList (x :: rest))) with
    (formatted_values <- comprehension _in_element (x :: rest) ;;
     Return (field ++ " in (" ++ join ", " formatted_values ++ ")")).
  rewrite returns_bind, comprehension_return_iff, forallb_forall.
  split; intros H y Hy; apply _in_element_returns, H, Hy.
Qed.

Lemma _not_in_returns (field : string) (value : pyval) :
  (exists out, _not_in field value = Return out) <->
  match value with
  | PList (x :: rest) => forallb listable (x :: rest)
  | _ => false
  end = true.
Proof. rewrite _not_in_wraps, returns_bind. apply _in_returns. Qed.

Lemma dispatch_returns (operator : pyval) (field : string) (value : pyval) :
  (exists out, dispatch operator field value = Return out) <->
  match operator with
  | PStr op => value_accepted op value
  | _ => false
  end = true.
Proof.
  destruct operator as [ | | | |op| | ];
    try (split; [intros [out H]; discriminate|discriminate]).
  unfold dispatch, value_accepted, mem, scalar_operators, list_operators,
    COMPARISON_OPERATORS.
  cbn [table_get existsb].
  repeat match goal with
  | |- context [String.eqb ?a op] =>
      destruct (String.eqb a op); cbv iota; cbn [orb]
  end;
  first [ apply _equal_returns
        | apply _not_equal_returns
        | apply (range_returns value (fun v => field ++ " > " ++ v))
        | apply (range_returns value (fun v => field ++ " >= " ++ v))
        | apply (range_returns value (fun v => field ++ " < " ++ v))
        | apply (range_returns value (fun v => field ++ " <= " ++ v))
        | apply _in_returns
        | apply _not_in_returns
        | split; [intros [out H]; discriminate|discriminate] ].
Qed.

Lemma comprehension_head_returns {A B : Type} (f : A -> outcome B)
    (a : A) (l : list A) (ys : list B) :
  comprehension f (a :: l) = Return ys -> exists y, f a = Return y.
Proof.
  simpl. destruct (f a) as [y| |]; simpl; try discriminate. eauto.
Qed.

Lemma join_returns (operator children : pyval) :
  (exists out,
     (if negb (truthy children)
      then Raise (FilterError (MsgNeedsCondition operator))
      else
        items <- iterate children ;;
        conditions <- comprehension compile items ;;
        if eq_str operator "AND"
        then Return ("(" ++ join " and " conditions ++ ")")
        else if eq_str operator "OR"
        then Return ("(" ++ join " or " conditions ++ ")")
        else if eq_str operator "NOT"
        then Return ("!(" ++ join " and " conditions ++ ")")
        else Raise (FilterError (MsgUnknownLogical operator))) = Return out)
  <->
  (exists op c rest,
     operator = PStr op /\ mem op logical_operators = true /\
     children = PList (c :: rest) /\
     exists fragments, comprehension compile (c :: rest) = Return fragments).
Proof.
  split.
  - intros [out H].
    destruct (truthy children) eqn:Ht; cbn [negb] in H; [|discriminate].
    destruct (iterate children) as [items| |] eqn:Hi; cbn [bind] in H;
      try discriminate.
    destruct (comprehension compile items) as [fragments| |] eqn:Hc;
      cbn [bind] in H; try discriminate.
    assert (Hop : exists op, operator = PStr op /\ mem op logical_operators = true).
    { destruct operator as [ | | | |op| | ]; cbn [eq_str] in H; try discriminate.
      exists op. split; [reflexivity|].
      unfold mem, logical_operators. cbn [existsb].
      rewrite (String.eqb_sym "AND"), (String.eqb_sym "OR"), (String.eqb_sym "NOT").
      destruct (String.eqb op "AND"); [reflexivity|].
      destruct (String.eqb op "OR"); [reflexivity|].
      destruct (String.eqb op "NOT"); [reflexivity|discriminate]. }
    destruct Hop as [op [-> Hm]].
    destruct children as [ | | | |s|l|d]; simpl in Hi; try discriminate;
      injection Hi as <-.
    + exfalso. destruct s as [|c s]; [discriminate|].
      destruct (comprehension_head_returns _ _ _ _ Hc) as [y Hy].
      apply compile_returns_dict in Hy. discriminate.
    + destruct l as [|c rest]; [discriminate|].
      exists op, c, rest. eauto.
    + exfalso. destruct d as [|[k v] d]; [discriminate|].
      destruct (comprehension_head_returns _ _ _ _ Hc) as [y Hy].
      apply compile_returns_dict in Hy. discriminate.
  - intros [op [c [rest [-> [Hm [-> [fragments Hc]]]]]]].
    cbn [truthy negb iterate bind]. rewrite Hc. cbn [bind eq_str].
    unfold mem, logical_operators in Hm. cbn [existsb] in Hm.
    rewrite (String.eqb_sym "AND"), (String.eqb_sym "OR"), (String.eqb_sym "NOT") in Hm.
    destruct (String.eqb op "AND"); [eauto|].
    destruct (String.eqb op "OR"); [eauto|].
    destruct (String.eqb op "NOT"); [eauto|discriminate].
Qed.

Lemma accepted_compiles (n : nat) :
  forall c, depth c < n ->
    ((exists out, compile c = Return out) <-> accepted n c = true).
Proof.
  induction n as [|n IH]; intros c Hn; [lia|].
  destruct c as [ | | | | | |d];
    try (split; [intros [out H]; apply compile_returns_dict in H; discriminate
                |discriminate]).
  rewrite <- normalize_filters_dict, normalize_filters_cases. cbn [accepted].
  destruct (dict_get "field" d) as [field|] eqn:Hf.
  - destruct field as [ | | | |name| | ]; cbn [as_str isinstance_str andb];
      try (split; [intros [out H]; discriminate|discriminate]).
    destruct (dict_get "operator" d) as [operator|];
      [|split; [intros [out H]; discriminate|discriminate]].
    destruct (dict_get "value" d) as [value|].
    + rewrite dispatch_returns. destruct operator; reflexivity.
    + split; [intros [out H]; discriminate|destruct operator; discriminate].
  - destruct (dict_get "operator" d) as [operator|];
      [|split; [intros [out H]; discriminate|discriminate]].
    destruct (dict_get "conditions" d) as [children|] eqn:Hc;
      [|split; [intros [out H]; discriminate|destruct operator; discriminate]].
    rewrite join_returns.
    assert (Hall : forall c rest,
               children = PList (c :: rest) ->
               ((exists fragments, comprehension compile (c :: rest) = Return fragments)
                <-> forallb (accepted n) (c :: rest) = true)).
    { intros c rest ->. rewrite comprehension_return_iff, forallb_forall.
      assert (Hd : forall x, In x (c :: rest) -> depth x < n).
      { intros x Hx. pose proof (depth_element _ _ Hx).
        pose proof (depth_dict_get _ _ _ Hc). lia. }
      split; intros H x Hx; apply (IH x (Hd x Hx)), H, Hx. }
    split.
    + intros [op [c [rest [-> [Hm [-> Hfr]]]]]].
      rewrite Hm. apply (Hall c rest eq_refl). exact Hfr.
    + intros H. destruct operator as [ | | | |op| | ]; try discriminate.
      destruct children as [ | | | | |[|c rest]| ]; try discriminate.
      apply andb_true_iff in H. destruct H as [Hm Hacc].
      exists op, c, rest. repeat split; try assumption.
      apply (Hall c rest eq_refl). exact Hacc.
Qed.

(** X15. Which filters compile, among those that stay within the two
    limits of the interpreter and hold no infinite and no not-a-number
    float in a list: [max_str_digits] is the bound of the interpreter
    on the digits of the text of an integer, which no integer of the
    filter exceeds, and [max_depth] a depth of nesting that its
    recursion limit lets the call go down to, which the filter does not
    exceed.  For such a filter [normalize_filters] returns a text
    exactly when it is built as follows: a dictionary with a string
    under [field], one of the eight operators under [operator] and,
    under [value], a string, boolean, integer or float other than
    infinite and not-a-number for the six scalar operators, or a list
    that is not empty of strings, booleans and numbers for [in] and
    [not in]; or a dictionary without [field], with [AND], [OR] or
    [NOT] under [operator] and, under [conditions], a list that is not
    empty of filters built the same way.  Every other such input
    raises. *)
Theorem X15_the_filters_that_compile
    (max_str_digits max_depth : nat) (filters : pyval) :
  ints_within max_str_digits filters = true ->
  depth filters <= max_depth ->
  lists_finite filters = true ->
  ((exists out, normalize_filters filters = Return out) <-> accepts filters = true) /\
  (accepts filters = false -> exists e, normalize_filters filters = Raise e).
Proof.
  intros Hdigits Hdepth Hfinite.
  assert (H : (exists out, normalize_filters filters = Return out)
              <-> accepts filters = true).
  { destruct filters as [ | | | | | |d];
      try (split; [intros [out H]; discriminate|discriminate]).
    rewrite normalize_filters_dict. apply accepted_compiles. lia. }
  split; [exact H|].
  intros Hacc. pose proof (normalize_filters_total filters) as T.
  destruct (normalize_filters filters) as [out|e|]; [|eauto|contradiction].
  assert (accepts filters = true) by (apply H; eauto). congruence.
Qed.

(** ** The heap a call leaves *)

Lemma bind_value {A B : Type} (h : Heap.heap) (m : Heap.M A) (a : A)
    (k : A -> Heap.M B) :
  m h = (Return a, h) -> Heap.bind m k h = k a h.
Proof. intros E. unfold Heap.bind. rewrite E. reflexivity. Qed.

Lemma dispatch_scalar_heap (fuel : nat) (h : Heap.heap) (op field : string)
    (v : Heap.val) (t : pyval) :
  denotes h v t ->
  In op scalar_operators ->
  Heap.dispatch repr_finite fuel (Heap.VStr op) field v h
    = (dispatch (PStr op) field t, h).
Proof.
  intros Hd Hop. unfold scalar_operators in Hop.
  destruct Hop as [<-|[<-|[<-|[<-|[<-|[<-|[]]]]]]].
  - exact (_equal_heap fuel h field v t Hd).
  - exact (_not_equal_heap fuel h field v t Hd).
  - exact (range_heap fuel h v t (fun r => field ++ " > " ++ r) Hd).
  - exact (range_heap fuel h v t (fun r => field ++ " >= " ++ r) Hd).
  - exact (range_heap fuel h v t (fun r => field ++ " < " ++ r) Hd).
  - exact (range_heap fuel h v t (fun r => field ++ " <= " ++ r) Hd).
Qed.

(** X16. A comparison under one of the six scalar operators only reads:
    run on a dictionary of the heap that holds a string under [field],
    such an operator and a value, the compiler over the heap computes
    the outcome of the compiler over trees and leaves the very heap it
    was given, no object written and none allocated. *)
Theorem X16_scalar_comparison_leaves_the_heap
    (fuel : nat) (h : Heap.heap) (filters : Heap.val)
    (d : list (string * pyval)) (field op : string) (value : pyval) :
  denotes h filters (PDict d) ->
  dict_get "field" d = Some (PStr field) ->
  dict_get "operator" d = Some (PStr op) ->
  dict_get "value" d = Some value ->
  In op scalar_operators ->
  Heap.normalize_filters repr_finite (S fuel) filters h
    = (normalize_filters (PDict d), h).
Proof.
  intros Hd Hf Ho Hv Hop.
  rewrite (comparison_node _ _ _ _ Hf Ho Hv).
  pose proof (contains_denotes _ _ _ "field" Hd) as Cf.
  pose proof (contains_denotes _ _ _ "operator" Hd) as Co.
  pose proof (contains_denotes _ _ _ "value" Hd) as Cv.
  cbn [contains] in Cf, Co, Cv.
  rewrite (dict_mem_get _ _ _ Hf) in Cf.
  rewrite (dict_mem_get _ _ _ Ho) in Co.
  rewrite (dict_mem_get _ _ _ Hv) in Cv.
  pose proof (getitem_denotes _ _ _ "field" Hd) as Gf.
  pose proof (getitem_denotes _ _ _ "operator" Hd) as Go.
  pose proof (getitem_denotes _ _ _ "value" Hd) as Gv.
  cbn [getitem] in Gf, Go, Gv. rewrite Hf in Gf. rewrite Ho in Go. rewrite Hv in Gv.
  destruct Gf as [field' [Gf Df]]. destruct Go as [operator' [Go Do]].
  destruct Gv as [value' [Gv Dv]].
  inversion Df; subst. inversion Do; subst.
  unfold Heap.normalize_filters.
  rewrite (bind_value _ _ _ _ (isinstance_dict_denotes _ _ _ Hd)). cbn [isinstance_dict negb].
  rewrite (bind_value _ _ _ _ Cf).
  cbn [Heap._parse_comparison_condition]. unfold Heap._parse_comparison_body.
  rewrite (bind_value _ _ _ _ Cf). cbn [negb].
  rewrite (bind_value _ _ _ _ Gf). cbn [Heap.as_str].
  rewrite (bind_value _ _ _ _ Co). cbn [negb].
  rewrite (bind_value _ _ _ _ Cv). cbn [negb].
  rewrite (bind_value _ _ _ _ Go), (bind_value _ _ _ _ Gv).
  apply dispatch_scalar_heap; assumption.
Qed.

Lemma update_last (h : Heap.heap) (old new : Heap.obj) :
  Heap.update (length h) new (h ++ [old])%list = (h ++ [new])%list.
Proof. induction h as [|x h IH]; simpl; [reflexivity|]. rewrite IH. reflexivity. Qed.

Lemma nth_error_last (h : Heap.heap) (o : Heap.obj) :
  nth_error (h ++ [o])%list (length h) = Some o.
Proof. rewrite nth_error_app2, Nat.sub_diag; [reflexivity|lia]. Qed.

Lemma list_append_last (h : Heap.heap) (items : list Heap.val) (x : Heap.val) :
  Heap.list_append (length h) x (h ++ [Heap.OList items])%list
    = (Return tt, (h ++ [Heap.OList (items ++ [x])])%list).
Proof.
  unfold Heap.list_append, Heap.bind, Heap.load, Heap.store.
  rewrite nth_error_last. cbv beta iota. rewrite nth_error_last, update_last.
  reflexivity.
Qed.

Lemma rendered_of_return (trees : list pyval) (fragments : list string) :
  comprehension _in_element trees = Return fragments ->
  rendered_before_refusal trees = fragments.
Proof.
  revert fragments. induction trees as [|x xs IH]; intros fragments H.
  - injection H as <-. reflexivity.
  - cbn [comprehension rendered_before_refusal] in *.
    destruct (_in_element x) as [y|e|]; cbn [bind] in H; try discriminate.
    destruct (comprehension _in_element xs) as [ys|e|]; cbn [bind] in H;
      try discriminate.
    injection H as <-. rewrite (IH ys eq_refl). reflexivity.
Qed.

Lemma rendered_of_refusal (before : list pyval) (x : pyval) (after : list pyval) :
  forallb listable before = true ->
  listable x = false ->
  rendered_before_refusal (before ++ x :: after)%list = rendered_before_refusal before /\
  comprehension _in_element before = Return (rendered_before_refusal before) /\
  comprehension _in_element (before ++ x :: after)%list
    = Raise (FilterError (MsgUnsupportedInType (type_of x))).
Proof.
  intros Hb Hx.
  assert (Ex : _in_element x = Raise (FilterError (MsgUnsupportedInType (type_of x))))
    by (destruct x; try discriminate; reflexivity).
  induction before as [|b bs IH].
  - cbn [app rendered_before_refusal comprehension]. rewrite Ex. repeat split.
  - cbn [forallb] in Hb. apply andb_true_iff in Hb. destruct Hb as [Hb Hbs].
    destruct (IH Hbs) as [E1 [E2 E3]].
    cbn [app rendered_before_refusal comprehension]. rewrite E1, E2, E3.
    assert (Eb : exists y, _in_element b = Return y)
      by (destruct b; try discriminate; eexists; reflexivity).
    destruct Eb as [y ->]. repeat split.
Qed.

(** The loop of [_in] on the heap that the allocation of
    [formatted_values] leaves: only the new list changes, and it gets
    the texts of the elements that come before the first one that is
    refused. *)
Lemma _in_loop_last (h : Heap.heap) (items : list Heap.val) (trees : list pyval) :
  Forall2 (denotes h) items trees ->
  forall done,
    Heap.for_each items (Heap._in_body repr_finite (length h))
      (h ++ [Heap.OList (map Heap.VStr done)])%list
    = (match comprehension _in_element trees with
       | Return _ => Return tt
       | Raise e => Raise e
       | Undefined => Undefined
       end,
       (h ++ [Heap.OList (map Heap.VStr (done ++ rendered_before_refusal trees)%list)])%list).
Proof.
  induction 1 as [|w x ws xs Hwx _ IH]; intros done.
  - cbn [Heap.for_each comprehension rendered_before_refusal].
    rewrite app_nil_r. reflexivity.
  - cbn [Heap.for_each comprehension rendered_before_refusal].
    assert (Hstep : forall y,
               Heap.list_append (length h) (Heap.VStr y)
                 (h ++ [Heap.OList (map Heap.VStr done)])%list
               = (Return tt,
                  (h ++ [Heap.OList (map Heap.VStr (done ++ [y])%list)])%list))
      by (intros y; rewrite list_append_last, map_app; reflexivity).
    assert (Hgo : forall y,
               _in_element x = Return y ->
               Heap._in_body repr_finite (length h) w
                 (h ++ [Heap.OList (map Heap.VStr done)])%list
               = (Return tt,
                  (h ++ [Heap.OList (map Heap.VStr (done ++ [y])%list)])%list)).
    { intros y Hy. unfold Heap._in_body, _in_element in *.
      inversion Hwx; subst;
        cbn [Heap.as_str Heap.as_bool Heap.as_number as_str as_bool as_number] in *;
        try discriminate; injection Hy as <-; apply Hstep. }
    assert (Hstop : forall e,
               _in_element x = Raise e ->
               Heap._in_body repr_finite (length h) w
                 (h ++ [Heap.OList (map Heap.VStr done)])%list
               = (Raise e, (h ++ [Heap.OList (map Heap.VStr done)])%list)).
    { intros e He.
      pose proof (denotes_unchanged _ _ _ _
                    (unchanged_alloc h (Heap.OList (map Heap.VStr done))) Hwx) as Hd'.
      unfold Heap._in_body, _in_element in *.
      inversion Hwx; subst;
        cbn [Heap.as_str Heap.as_bool Heap.as_number as_str as_bool as_number] in *;
        try discriminate; injection He as <-;
        rewrite (bind_value _ _ _ _ (type_of_denotes _ _ _ Hd')); reflexivity. }
    unfold Heap.bind.
    destruct (_in_element x) as [y|e|] eqn:Ex; cbn [bind].
    + rewrite (Hgo y eq_refl), (IH (done ++ [y])%list), <- app_assoc.
      destruct (comprehension _in_element xs); reflexivity.
    + rewrite (Hstop e eq_refl), app_nil_r. reflexivity.
    + exfalso. exact (_in_element_total x Ex).
Qed.

(** X17. An [in] comparison writes in one place only.  Given a list of
    the heap that is not empty, whose integers have no more digits than
    [max_str_digits], the bound of the interpreter on the text of an
    integer, and that holds no infinite and no not-a-number float,
    [_in] allocates one list, its [formatted_values], and leaves the
    heap it was given followed by that list, which holds the texts
    rendered: those of all the elements, in their order, when the call
    returns; when an element is refused, the call raises the
    [FilterError] of its type and the list holds the texts of the
    elements before it, in their order, and nothing else. *)
Theorem X17_in_allocates_one_list
    (max_str_digits : nat)
    (h : Heap.heap) (field : string) (value : Heap.val) (trees : list pyval) :
  denotes h value (PList trees) ->
  trees <> [] ->
  ints_within max_str_digits (PList trees) = true ->
  lists_finite (PList trees) = true ->
  exists rendered,
    Heap._in repr_finite field value h
      = (_in field (PList trees), (h ++ [Heap.OList (map Heap.VStr rendered)])%list) /\
    (forall fragments,
        comprehension _in_element trees = Return fragments ->
        rendered = fragments /\
        _in field (PList trees)
          = Return (field ++ " in (" ++ join ", " fragments ++ ")")) /\
    (forall before x after,
        trees = (before ++ x :: after)%list ->
        forallb listable before = true ->
        listable x = false ->
        comprehension _in_element before = Return rendered /\
        _in field (PList trees)
          = Raise (FilterError (MsgUnsupportedInType (type_of x)))).
Proof.
  intros Hd Hne Hdigits Hfinite.
  assert (E : _in field (PList trees) =
              (formatted_values <- comprehension _in_element trees ;;
               Return (field ++ " in (" ++ join ", " formatted_values ++ ")")))
    by (destruct trees; [contradiction|reflexivity]).
  assert (Ht : truthy (PList trees) = true) by (destruct trees; [contradiction|reflexivity]).
  inversion Hd as [ | | | | |l items ? Hl Hall| ]; subst.
  pose proof (_in_loop_last h items trees Hall []) as Eloop.
  exists (rendered_before_refusal trees). split; [|split].
  - unfold Heap._in.
    rewrite (bind_value _ _ _ _ (isinstance_list_denotes _ _ _ Hd)).
    cbn [isinstance_list negb].
    rewrite (bind_value _ _ _ _ (truthy_denotes _ _ _ Hd)). rewrite Ht. cbn [negb].
    unfold Heap.bind at 1. unfold Heap.alloc.
    assert (Ei : Heap.iterate (Heap.VRef l) (h ++ [Heap.OList []])%list
                 = (Return items, (h ++ [Heap.OList []])%list)).
    { unfold Heap.iterate, Heap.bind, Heap.load.
      rewrite (unchanged_alloc h _ _ _ Hl). reflexivity. }
    rewrite (bind_value _ _ _ _ Ei).
    unfold Heap.bind at 1. cbn [map app] in Eloop. rewrite Eloop, E.
    destruct (comprehension _in_element trees) as [fragments|e|] eqn:Ec; cbn [bind].
    + rewrite (rendered_of_return _ _ Ec).
      rewrite (bind_value _ _ (join ", " fragments));
        [reflexivity|apply join_heap, nth_error_last].
    + reflexivity.
    + reflexivity.
  - intros fragments Ec. split; [exact (rendered_of_return _ _ Ec)|].
    rewrite E, Ec. reflexivity.
  - intros before x after Hsplit Hb Hx.
    destruct (rendered_of_refusal before x after Hb Hx) as [E1 [E2 E3]].
    rewrite E, Hsplit, E1, E3. split; [exact E2|reflexivity].
Qed.

End Filters.

(** ** The claims on given filters *)



Lemma C6_witness :
  startswith "meta.meta.x" "meta." = true /\
  normalize_filters repr_constant
    (PDict [("field", PStr "meta.meta.x"); ("operator", PStr "<");
            ("value", PInt 3)])
  = dispatch repr_constant (PStr "<") "meta.x" (PInt 3).
Proof.
  split; [reflexivity|].
  apply (proj1 (proj2 (C6_meta_prefix repr_constant
           [("field", PStr "meta.meta.x"); ("operator", PStr "<"); ("value", PInt 3)]
           "meta.meta.x" (PStr "<") (PInt 3) eq_refl eq_refl eq_refl))
         "meta.x" eq_refl).
Defined.


Lemma C8_witness :
  _in repr_constant "active" (PList [PBool true; PBool false])
    = Return "active in (true, false)" /\
  exists fragments,
    "active in (true, false)" = "active in (" ++ join ", " fragments ++ ")" /\
    _not_in repr_constant "active" (PList [PBool true; PBool false])
      = Return ("!(" ++ "active in (true, false)" ++ ")") /\
    length fragments = 2 /\
    forall i, nth_error [PBool true; PBool false] i = Some (PBool false) ->
              nth_error fragments i = Some "false".
Proof.
  split; [reflexivity|].
  apply (proj1 (proj2 (proj2 (C8_boolean_literals repr_constant false)))
           "active" [PBool true; PBool false] "active in (true, false)" eq_refl).
Defined.

Lemma C10_witness :
  In ">=" [">"; ">="; "<"; "<="] /\
  normalize_filters repr_constant
    (PDict [("field", PStr "meta.active"); ("operator", PStr ">=");
            ("value", PBool true)])
  = Return "active >= true".
Proof.
  split; [right; left; reflexivity|].
  apply (proj1 (C10_range_operator_on_boolean repr_constant
           [("field", PStr "meta.active"); ("operator", PStr ">=");
            ("value", PBool true)]
           "meta.active" ">=" true eq_refl eq_refl eq_refl
           (or_intror (or_introl eq_refl)))).
Defined.

(** C2 as it is stated fails on a child that is not a dictionary:
    [{"operator": "AND", "conditions": [5]}] raises the [TypeError] of
    ["field" not in 5], and not a [FilterError].  So do a field name
    that is not a string ([AttributeError] of [startswith]), an
    operator that cannot be hashed, and conditions that cannot be
    iterated. *)
Lemma C2_counterexample :
  normalize_filters repr_constant
    (PDict [("operator", PStr "AND"); ("conditions", PList [PInt 5])])
  = Raise TypeError /\
  ~ (exists msg,
       normalize_filters repr_constant
         (PDict [("operator", PStr "AND"); ("conditions", PList [PInt 5])])
       = Raise (FilterError msg)) /\
  normalize_filters repr_constant
    (PDict [("field", PInt 3); ("operator", PStr "=="); ("value", PInt 1)])
  = Raise AttributeError /\
  normalize_filters repr_constant
    (PDict [("field", PStr "meta.n"); ("operator", PList [PStr "=="]);
            ("value", PInt 1)])
  = Raise TypeError /\
  normalize_filters repr_constant
    (PDict [("operator", PStr "AND"); ("conditions", PInt 5)])
  = Raise TypeError.
Proof.
  split; [reflexivity|]. split; [intros [msg H]; discriminate H|].
  repeat split.
Qed.

(** Where [int_within] draws the line, shown under a bound of 12
    digits: the largest integer of 12 digits is within it, the smallest
    of 13 digits is not, with either sign; the sign is not counted, and
    a bound of [0] is no bound. *)
Example int_within_at_the_bound :
  int_within 12 (10 ^ 12 - 1) = true /\
  int_within 12 (10 ^ 12) = false /\
  int_within 12 (- (10 ^ 12 - 1)) = true /\
  int_within 12 (- (10 ^ 12)) = false /\
  ints_within 12
    (PDict [("field", PStr "meta.n"); ("operator", PStr "==");
            ("value", PInt (10 ^ 12))]) = false /\
  int_within 0 (10 ^ 12) = true.
Proof. vm_compute. repeat split. Qed.

(** C2 on [{"operator": "NOT", "conditions": [{"field": "meta.n",
    "operator": "~=", "value": 100}]}], under the bound of 4300 digits
    and with a nesting of 100 allowed. *)
Lemma C2_witness :
  let filters :=
    PDict [("operator", PStr "NOT");
           ("conditions",
            PList [PDict [("field", PStr "meta.n"); ("operator", PStr "~=");
                          ("value", PInt 100)]])] in
  well_typed filters = true /\
  ints_within 4300 filters = true /\
  depth filters <= 100 /\
  ((exists out, normalize_filters repr_constant filters = Return out) \/
   (exists msg, normalize_filters repr_constant filters = Raise (FilterError msg))).
Proof.
  intros filters.
  assert (Hd : depth filters <= 100) by (vm_compute; lia).
  split; [reflexivity|]. split; [reflexivity|]. split; [exact Hd|].
  apply (proj1 (proj2 (C2_filter_error_on_typed_filters repr_constant 4300 100 filters)
                  eq_refl eq_refl Hd)).
Defined.

(** C9 on a heap of two objects, the dictionary of the filter
    [{"field": "meta.tag", "operator": "in", "value": ["it's", True]}]
    and the list that is its value. *)
Lemma C9_witness :
  let h :=
    [Heap.ODict [("field", Heap.VStr "meta.tag"); ("operator", Heap.VStr "in");
                 ("value", Heap.VRef 1)];
     Heap.OList [Heap.VStr "it's"; Heap.VBool true]] in
  let tree :=
    PDict [("field", PStr "meta.tag"); ("operator", PStr "in");
           ("value", PList [PStr "it's"; PBool true])] in
  denotes h (Heap.VRef 0) tree /\
  exists h',
    Heap.normalize_filters repr_constant 3 (Heap.VRef 0) h
      = (Return "tag in ('it\'s', true)", h') /\
    unchanged h h'.
Proof.
  intros h tree.
  assert (Hd : denotes h (Heap.VRef 0) tree).
  { eapply denotes_dict; [reflexivity|].
    repeat (constructor; simpl; try (split; [reflexivity|])); try constructor.
    eapply denotes_list; [reflexivity|]. repeat constructor. }
  split; [exact Hd|].
  destruct (proj2 (C9_pure_function repr_constant h (Heap.VRef 0) tree 3 Hd
                     (Nat.lt_succ_diag_r 2)))
    as [h' [E [U _]]].
  exists h'. split; [exact E|exact U].
Defined.

(** ** Cases of the test-suite *)

Example test_not_operator :
  normalize_filters repr_constant
    (PDict [("operator", PStr "NOT");
            ("conditions",
             PList [PDict [("field", PStr "meta.number"); ("operator", PStr "==");
                           ("value", PInt 100)];
                    PDict [("field", PStr "meta.name"); ("operator", PStr "==");
                           ("value", PStr "name_0")]])])
  = Return ("!(number = 100 and name contains "
              ++ chr DQUOTE ++ "name_0" ++ chr DQUOTE ++ ")").
Proof. reflexivity. Qed.

Example test_range_operators_with_in :
  normalize_filters repr_constant
    (PDict [("operator", PStr "AND");
            ("conditions",
             PList [PDict [("field", PStr "meta.number"); ("operator", PStr "<=");
                           ("value", PInt 2)];
                    PDict [("field", PStr "meta.number"); ("operator", PStr ">=");
                           ("value", PInt 0)];
                    PDict [("field", PStr "meta.name"); ("operator", PStr "in");
                           ("value", PList [PStr "name_0"; PStr "name_1"])]])])
  = Return "(number <= 2 and number >= 0 and name in ('name_0', 'name_1'))".
Proof. reflexivity. Qed.

Example test_escape_backslash :
  normalize_filters repr_constant
    (PDict [("field", PStr "meta.path"); ("operator", PStr "==");
            ("value", PStr "C:\Users\test")])
  = Return ("path contains " ++ chr DQUOTE ++ "C:\\Users\\test" ++ chr DQUOTE).
Proof. reflexivity. Qed.

Example test_escape_in_list :
  normalize_filters repr_constant
    (PDict [("field", PStr "meta.tag"); ("operator", PStr "in");
            ("value",
             PList [PStr "it's";
                    PStr ("a " ++ chr DQUOTE ++ "test" ++ chr DQUOTE)])])
  = Return ("tag in ('it\'s', 'a " ++ chr DQUOTE ++ "test" ++ chr DQUOTE ++ "')").
Proof. reflexivity. Qed.

Example test_filters_not_dict :
  normalize_filters repr_constant (PStr "invalid") = Raise (FilterError MsgMustBeDict).
Proof. reflexivity. Qed.

Example test_invalid_logical_operator :
  normalize_filters repr_constant
    (PDict [("operator", PStr "INVALID"); ("conditions", PList [])])
  = Raise (FilterError (MsgNeedsCondition (PStr "INVALID"))).
Proof. reflexivity. Qed.

Example test_unsupported_value_type_raises_error :
  normalize_filters repr_constant
    (PDict [("field", PStr "meta.data"); ("operator", PStr ">");
            ("value", PDict [("nested", PBool true)])])
  = Raise (FilterError (MsgUnsupportedType Tdict)).
Proof. reflexivity. Qed.

Example test_float_nan :
  normalize_filters repr_constant
    (PDict [("field", PStr "meta.val"); ("operator", PStr "==");
            ("value", PFloat S754_nan)])
  = Raise (FilterError (MsgValueNotSupported (PFloat S754_nan))).
Proof. reflexivity. Qed.

(** ** The further properties on given filters *)


Lemma X2_witness :
  let d :=
    [("field", PStr "meta.age"); ("operator", PStr ">"); ("value", PInt 30)] in
  let d' :=
    [("conditions", PList []); ("value", PInt 30); ("operator", PStr ">");
     ("field", PStr "meta.age")] in
  dict_get "value" d = dict_get "value" d' /\
  normalize_filters repr_constant (PDict d) = normalize_filters repr_constant (PDict d').
Proof.
  intros d d'. split; [reflexivity|].
  apply (proj1 (X2_only_the_keys_count repr_constant d d')
           "meta.age" (PStr ">") (PInt 30)); reflexivity.
Defined.


Lemma X4_witness :
  isinstance_str (PInt 3) = false /\
  normalize_filters repr_constant (PDict [("field", PInt 3)]) = Raise AttributeError.
Proof.
  split; [reflexivity|].
  apply (X4_field_not_a_string repr_constant [("field", PInt 3)] (PInt 3));
    reflexivity.
Defined.

Lemma X5_witness :
  startswith "category" "meta." = false /\
  normalize_filters repr_constant
    (PDict [("field", PStr "meta.category"); ("operator", PStr "==");
            ("value", PStr "tech")])
  = normalize_filters repr_constant
      (PDict [("field", PStr "category"); ("operator", PStr "==");
              ("value", PStr "tech")]).
Proof.
  split; [reflexivity|].
  apply (X5_prefixed_and_plain_names_agree repr_constant _ _
           "category" (PStr "==") (PStr "tech")); reflexivity.
Defined.

Lemma X6_witness :
  let node op :=
    PDict [("field", PStr "meta.status"); ("operator", PStr op);
           ("value", PList [PStr "draft"; PStr "archived"])] in
  normalize_filters repr_constant (node "in")
    = Return "status in ('draft', 'archived')" /\
  normalize_filters repr_constant (node "not in")
    = (inner <- normalize_filters repr_constant (node "in") ;;
       Return ("!(" ++ inner ++ ")")).
Proof.
  intros node. split; [reflexivity|].
  apply (proj2 (X6_negated_operators repr_constant
           [("field", PStr "meta.status"); ("operator", PStr "in");
            ("value", PList [PStr "draft"; PStr "archived"])]
           [("field", PStr "meta.status"); ("operator", PStr "not in");
            ("value", PList [PStr "draft"; PStr "archived"])]
           "meta.status" (PList [PStr "draft"; PStr "archived"])
           eq_refl eq_refl eq_refl eq_refl)); reflexivity.
Defined.



Lemma X9_witness :
  let items := [PInt 1; PDict [("nested", PBool true)]; PNone] in
  ints_within 4300 (PList items) = true /\
  lists_finite (PList items) = true /\
  listable (PDict [("nested", PBool true)]) = false /\
  _in repr_constant "data" (PList items)
  = Raise (FilterError (MsgUnsupportedInType Tdict)).
Proof.
  intros items.
  split; [reflexivity|]. split; [reflexivity|]. split; [reflexivity|].
  apply (proj2 (X9_elements_of_an_in_list repr_constant 4300 "data" items
                  ltac:(discriminate) eq_refl eq_refl)
         [PInt 1] (PDict [("nested", PBool true)]) [PNone]); reflexivity.
Defined.

Lemma X10_witness :
  let good :=
    PDict [("field", PStr "meta.n"); ("operator", PStr "=="); ("value", PInt 1)] in
  compile repr_constant good = Return "n = 1" /\
  normalize_filters repr_constant
    (PDict [("operator", PStr "OR"); ("conditions", PList [good; PNone; good])])
  = Raise TypeError.
Proof.
  intros good. split; [reflexivity|].
  apply (X10_child_that_is_no_container repr_constant
           [("operator", PStr "OR"); ("conditions", PList [good; PNone; good])]
           (PStr "OR") [good] PNone [good] ["n = 1"]);
    try reflexivity.
  left. reflexivity.
Defined.

Lemma X11_witness :
  dict_get "conditions" [("operator", PStr "AND"); ("conditions", PStr "ab")]
    = Some (PStr "ab") /\
  normalize_filters repr_constant
    (PDict [("operator", PStr "AND"); ("conditions", PStr "ab")])
  = Raise (FilterError (MsgKeyMissing "operator" (PStr "a"))).
Proof.
  split; [reflexivity|].
  apply (X11_conditions_given_as_a_string repr_constant
           [("operator", PStr "AND"); ("conditions", PStr "ab")] (PStr "AND")
           "a"%char "b"); reflexivity.
Defined.

Lemma X13_witness :
  _escape_yql_string "C:\dir" = _escape_yql_string "C:\dir" /\ "C:\dir" = "C:\dir".
Proof.
  split; [reflexivity|].
  apply (proj1 (X13_escaping_is_injective repr_constant "C:\dir" "C:\dir")).
  reflexivity.
Defined.

Lemma X14_witness :
  let filters :=
    PDict [("operator", PStr "NOT");
           ("conditions",
            PList [PDict [("field", PStr "meta.n"); ("operator", PStr "==");
                          ("value", PInt 100)]])] in
  depth filters < 7 /\
  _parse_comparison_condition repr_constant 7 filters = Return "!(n = 100)".
Proof.
  intros filters.
  assert (H : depth filters < 7) by (simpl; lia).
  split; [exact H|].
  rewrite (proj2 (proj2 (X14_recursion_bounded_by_depth repr_constant 7 filters H))
             eq_refl).
  reflexivity.
Defined.

Lemma X15_witness :
  let filters :=
    PDict [("operator", PStr "AND");
           ("conditions",
            PList [PDict [("field", PStr "meta.type"); ("operator", PStr "==");
                          ("value", PStr "article")];
                   PDict [("field", PStr "meta.rating"); ("operator", PStr "in");
                          ("value", PList [PInt 3; PInt 4])]])] in
  ints_within 4300 filters = true /\
  depth filters <= 100 /\
  lists_finite filters = true /\
  accepts filters = true /\
  exists out, normalize_filters repr_constant filters = Return out.
Proof.
  intros filters.
  assert (Hd : depth filters <= 100) by (vm_compute; lia).
  split; [reflexivity|]. split; [exact Hd|]. split; [reflexivity|].
  split; [reflexivity|].
  apply (proj2 (proj1 (X15_the_filters_that_compile repr_constant 4300 100 filters
                         eq_refl Hd eq_refl))).
  reflexivity.
Defined.

Lemma X16_witness :
  let h :=
    [Heap.ODict [("field", Heap.VStr "meta.age"); ("operator", Heap.VStr ">=");
                 ("value", Heap.VInt 30)]] in
  In ">=" scalar_operators /\
  Heap.normalize_filters repr_constant 1 (Heap.VRef 0) h = (Return "age >= 30", h).
Proof.
  intros h.
  assert (Hop : In ">=" scalar_operators) by (simpl; tauto).
  split; [exact Hop|].
  apply (X16_scalar_comparison_leaves_the_heap repr_constant 0 h (Heap.VRef 0)
           [("field", PStr "meta.age"); ("operator", PStr ">="); ("value", PInt 30)]
           "meta.age" ">=" (PInt 30));
    try reflexivity; try exact Hop.
  eapply denotes_dict; [reflexivity|].
  repeat (constructor; simpl; try (split; [reflexivity|])); constructor.
Defined.

(** X17 on a list that raises and on one that returns.  The heap
    holds [["open", True, None, "late"]] and [["open", 7]]: in the
    first [None] is refused, and the list that [_in] has allocated is
    left holding the texts of the two elements before it; the second
    compiles, and the list allocated holds the two texts. *)
Lemma X17_witness :
  let h := [Heap.OList [Heap.VStr "open"; Heap.VBool true; Heap.VNone;
                        Heap.VStr "late"];
            Heap.OList [Heap.VStr "open"; Heap.VInt 7]] in
  let refused := [PStr "open"; PBool true; PNone; PStr "late"] in
  let rendered := [PStr "open"; PInt 7] in
  (denotes h (Heap.VRef 0) (PList refused) /\
   ints_within 4300 (PList refused) = true /\
   lists_finite (PList refused) = true /\
   Heap._in repr_constant "status" (Heap.VRef 0) h
     = (Raise (FilterError (MsgUnsupportedInType TNoneType)),
        (h ++ [Heap.OList [Heap.VStr "'open'"; Heap.VStr "true"]])%list)) /\
  (denotes h (Heap.VRef 1) (PList rendered) /\
   ints_within 4300 (PList rendered) = true /\
   lists_finite (PList rendered) = true /\
   Heap._in repr_constant "status" (Heap.VRef 1) h
     = (Return "status in ('open', 7)",
        (h ++ [Heap.OList [Heap.VStr "'open'"; Heap.VStr "7"]])%list)).
Proof.
  intros h refused rendered. split.
  - assert (Hd : denotes h (Heap.VRef 0) (PList refused))
      by (eapply denotes_list; [reflexivity|repeat constructor]).
    split; [exact Hd|]. split; [reflexivity|]. split; [reflexivity|].
    destruct (X17_in_allocates_one_list repr_constant 4300 h "status" (Heap.VRef 0)
                refused Hd ltac:(discriminate) eq_refl eq_refl)
      as [texts [Eheap [_ Hraise]]].
    destruct (Hraise [PStr "open"; PBool true] PNone [PStr "late"]
                eq_refl eq_refl eq_refl) as [Htexts Hout].
    injection Htexts as <-.
    rewrite Eheap, Hout. reflexivity.
  - assert (Hd : denotes h (Heap.VRef 1) (PList rendered))
      by (eapply denotes_list; [reflexivity|repeat constructor]).
    split; [exact Hd|]. split; [reflexivity|]. split; [reflexivity|].
    destruct (X17_in_allocates_one_list repr_constant 4300 h "status" (Heap.VRef 1)
                rendered Hd ltac:(discriminate) eq_refl eq_refl)
      as [texts [Eheap [Hreturn _]]].
    destruct (Hreturn ["'open'"; "7"] eq_refl) as [Htexts Hout].
    rewrite Eheap, Hout, Htexts. reflexivity.
Defined.
